(** * Product-Catalogs-Parser: a shallow embedding of [src/parser.py]

    The development follows the module top-down: the Python values that
    travel through the pipeline, the two mapping tables, the CSV and XML
    parsers, the [Parser] facade with [coerce_model], and the Mongo sink
    ([MongoStorage]).  Dictionaries are finite maps with string keys, lazy
    generators are the sequences they yield, exceptions are an error sum. *)

From Stdlib Require Import ZArith Floats.SpecFloat.
From stdpp Require Import gmap strings list fin_maps.

Open Scope string_scope.
Open Scope list_scope.

(** ** Python values *)

(** The values found in parsed records: [None] and [str] (lxml text, pandas
    object cells), [int], [float] and [bool] (cells of a column for which
    pandas inferred a numeric or boolean dtype). *)
Inductive pyval : Type :=
  | PNone
  | PStr (s : string)
  | PInt (z : Z)
  | PFloat (f : spec_float)
  | PBool (b : bool).

#[global] Instance spec_float_eq_dec : EqDecision spec_float.
Proof. solve_decision. Defined.

#[global] Instance pyval_eq_dec : EqDecision pyval.
Proof. solve_decision. Defined.

(** Python truth value testing ([bool(v)]): [None], the empty string, zero
    and [False] are falsy; everything else, NaN included, is truthy. *)
Definition truthy (v : pyval) : bool :=
  match v with
  | PNone => false
  | PStr s => negb (String.eqb s "")
  | PInt z => negb (Z.eqb z 0)
  | PFloat (S754_zero _) => false
  | PFloat _ => true
  | PBool b => b
  end.

(** [bool(name)] for a mapping entry, which is [None] or a [str]. *)
Definition name_truthy (o : option string) : bool :=
  match o with
  | None => false
  | Some s => negb (String.eqb s "")
  end.

(** The exceptions the module can raise. *)
Inductive pyerror : Type :=
  | ValueError (msg : string)
  | KeyError (key : string)
  | IOError (path : string)
  | InvalidOperation (msg : string)
  | OperationFailure (msg : string).

Inductive result (A : Type) : Type :=
  | Ok (a : A)
  | Raise (e : pyerror).
Arguments Ok {A} a.
Arguments Raise {A} e.

#[global] Instance result_ret : MRet result := fun _ a => Ok a.

#[global] Instance result_bind : MBind result := fun _ _ k r =>
  match r with
  | Ok a => k a
  | Raise e => Raise e
  end.

(** A record of either kind is a [dict] with string keys. *)
Abbreviation RawRecord := (gmap string pyval).
Abbreviation CanonicalRecord := (gmap string pyval).

(** One step of building a dict from key/value pairs. *)
Definition put {V : Type} (acc : gmap string V) (kv : string * V)
  : gmap string V :=
  <[kv.1 := kv.2]> acc.

(** ** Mapping tables *)

Definition CSV : string := "csv".
Definition XML : string := "xml".

(** A mapping literal, in source order: canonical name, then the native name
    or [None]. *)
Abbreviation FormatMapping := (list (string * option string)).

Definition MODEL_TO_CSV_DICT : FormatMapping :=
  [ ("id", Some "product_id");
    ("title", Some "product_name");
    ("sku_number", Some "sku_number");
    ("url", Some "product_url");
    ("image_url", Some "product_image_url");
    ("buy_url", Some "buy_url");
    ("description", Some "long_product_description");
    ("discount", Some "discount");
    ("discount_type", Some "discount_type");
    ("currency", Some "currency");
    ("retail_price", Some "retail_price");
    ("sale_price", Some "sale_price");
    ("brand", Some "brand");
    ("manufacture", Some "manufacture_name");
    ("shipping", Some "shipping");
    ("availability", Some "availability") ].

Definition MODEL_TO_XML_DICT : FormatMapping :=
  [ ("id", Some "item_unique_id");
    ("title", Some "item_title");
    ("sku_number", Some "item_sku");
    ("url", Some "item_page_url");
    ("image_url", Some "item_image_url");
    ("buy_url", Some "offer_page_url");
    ("description", Some "book_size_description");
    ("discount", None);
    ("discount_type", None);
    ("currency", None);
    ("retail_price", Some "item_price");
    ("sale_price", Some "list_price");
    ("brand", Some "item_seller");
    ("manufacture", Some "item_platform");
    ("shipping", Some "item_shipping_charge");
    ("availability", Some "amzn_sales_restriction") ].

(** ** CsvParser *)

Module CsvParser.

Definition HEADERS_CSV : list string :=
  [ "product_id";
    "product_name";
    "sku_number";
    "primary_category";
    "secondary_category";
    "product_url";
    "product_image_url";
    "buy_url";
    "short_product_description";
    "long_product_description";
    "discount"; "discount_type";
    "sale_price";
    "retail_price";
    "begin_date";
    "end_date";
    "brand";
    "shipping";
    "keywords";
    "manufacture_part_number";
    "manufacture_name";
    "shipping_information";
    "availability";
    "universal_product_code";
    "class_id";
    "currency";
    "m1";
    "pixel";
    "miscellaneous_attribute";
    "attribute_2"; "attribute_3";
    "attribute_4";
    "attribute_5";
    "attribute_6";
    "attribute_7";
    "attribute_8";
    "attribute_9";
    "attribute_10" ].

(** What [pd.read_csv(..., names=HEADERS_CSV, iterator=True)] hands to the
    loop: data frames.  A frame has named columns and rows of cells, one
    cell per column; a cell pandas could not fill is NaN. *)
Record DataFrame : Type := {
  columns : list string;
  rows : list (list pyval)
}.

Definition NaN : pyval := PFloat S754_nan.

(** [pd.isna] on a cell: [None] and NaN are the missing values. *)
Definition isna (v : pyval) : bool :=
  match v with
  | PNone => true
  | PFloat S754_nan => true
  | _ => false
  end.

(** [fillna] on one cell. *)
Definition fill_value (value c : pyval) : pyval :=
  if isna c then value else c.

(** [DataFrame.fillna(value)]. *)
Definition fillna (value : pyval) (df : DataFrame) : DataFrame :=
  {| columns := columns df;
     rows := map (map (fill_value value)) (rows df) |}.

(** [dict(zip(names, cells))]: later duplicates of a name win. *)
Definition row_to_dict (names : list string) (cells : list pyval) : RawRecord :=
  foldl (fun d kv => <[kv.1 := kv.2]> d) ∅ (zip names cells).

(** [DataFrame.to_dict('records')]. *)
Definition to_dict_records (df : DataFrame) : list RawRecord :=
  map (row_to_dict (columns df)) (rows df).

(** [parse], given the chunks already produced by [read_csv]:
    [for chunk in ...: yield from chunk.fillna('').to_dict('records')]. *)
Definition parse_chunks (chunks : list DataFrame) : list RawRecord :=
  flat_map (fun chunk => to_dict_records (fillna (PStr "") chunk)) chunks.

(** [parse(path)]: [read] is pandas' view of the file system, [None] for a
    file that cannot be read. *)
Definition parse (read : string → option (list DataFrame)) (path : string)
  : result (list RawRecord) :=
  match read path with
  | Some chunks => Ok (parse_chunks chunks)
  | None => Raise (IOError path)
  end.

(** A frame as [read_csv] builds it for this call: the columns are the
    [names] argument and every row has one cell per column. *)
Definition frame_ok (df : DataFrame) : Prop :=
  columns df = HEADERS_CSV ∧
  Forall (fun r => length r = length HEADERS_CSV) (rows df).

(** The rows of all chunks, in file order. *)
Definition all_rows (chunks : list DataFrame) : list (list pyval) :=
  flat_map rows chunks.

(** The way [read_csv] aligns a line with fewer fields than [names]: the
    trailing cells are NaN. *)
Definition pad_row (n : nat) (fields : list pyval) : list pyval :=
  fields ++ replicate (n - length fields) NaN.

End CsvParser.

(** ** XmlParser *)

Module XmlParser.

(** An element of the tree lxml builds: tag, text ([None] when the element
    has no text) and child elements. *)
#[warnings="-register-all"]
Inductive Element : Type :=
  | Elem (tag : string) (text : option string) (children : list Element).

Definition tag (e : Element) : string := let 'Elem t _ _ := e in t.
Definition text (e : Element) : option string := let 'Elem _ x _ := e in x.
Definition children (e : Element) : list Element := let 'Elem _ _ cs := e in cs.

Definition RECORD_TAG : string := "item_basic_data".

(** [child.text] as a Python value. *)
Definition text_value (o : option string) : pyval :=
  match o with
  | Some s => PStr s
  | None => PNone
  end.

(** The dict entry a child contributes. *)
Definition field_of (child : Element) : string * pyval :=
  (tag child, text_value (text child)).

(** [{child.tag: child.text for child in elem}] *)
Definition record_of (elem : Element) : RawRecord :=
  foldl (fun d child => <[tag child := text_value (text child)]> d) ∅
        (children elem).

(** [elem.clear()] *)
Definition clear (e : Element) : Element := Elem (tag e) None [].

(** [iterparse(path, events=('end',), tag='item_basic_data')] with the body
    of the loop, over one subtree.  Children are closed left to right; when
    a record element closes, its record is yielded from the children it has
    at that moment, then the element is cleared and the siblings before it
    are deleted from the parent.  The result is the records yielded while
    the subtree was read and the subtree as it is left in memory. *)
Fixpoint walk (e : Element) : list RawRecord * Element :=
  match e with
  | Elem t x cs =>
      let '(recs, kept) :=
        (fix walk_children (cs : list Element) (recs : list RawRecord)
             (kept : list Element) {struct cs} :=
           match cs with
           | [] => (recs, kept)
           | c :: cs' =>
               let '(rc, c') := walk c in
               walk_children cs' (recs ++ rc)
                 (if String.eqb (tag c) RECORD_TAG then [c'] else kept ++ [c'])
           end) cs [] [] in
      let e' := Elem t x kept in
      if String.eqb t RECORD_TAG
      then (recs ++ [record_of e'], clear e')
      else (recs, e')
  end.

Definition walk_children : list Element → list RawRecord → list Element →
                           list RawRecord * list Element :=
  fix walk_children cs recs kept :=
    match cs with
    | [] => (recs, kept)
    | c :: cs' =>
        let '(rc, c') := walk c in
        walk_children cs' (recs ++ rc)
          (if String.eqb (tag c) RECORD_TAG then [c'] else kept ++ [c'])
    end.

(** The records of a parsed document, in the order they are yielded. *)
Definition parse_tree (root : Element) : list RawRecord := (walk root).1.

(** [parse(path)]: [read] is lxml's view of the file system, [None] for a
    file that cannot be read as XML. *)
Definition parse (read : string → option Element) (path : string)
  : result (list RawRecord) :=
  match read path with
  | Some root => Ok (parse_tree root)
  | None => Raise (IOError path)
  end.

(** The record elements of a tree in closing order, and the trees in which
    no record element lies inside another one. *)
Fixpoint has_record (e : Element) : bool :=
  match e with
  | Elem t _ cs => String.eqb t RECORD_TAG || existsb has_record cs
  end.

Fixpoint containers (e : Element) : list Element :=
  match e with
  | Elem t _ cs =>
      flat_map containers cs ++ (if String.eqb t RECORD_TAG then [e] else [])
  end.

Fixpoint flat (e : Element) : bool :=
  match e with
  | Elem t _ cs =>
      if String.eqb t RECORD_TAG
      then negb (existsb has_record cs)
      else forallb flat cs
  end.

(** Is every record element of the tree empty (no text, no children), as
    [elem.clear()] leaves it? *)
Fixpoint records_cleared (e : Element) : bool :=
  match e with
  | Elem t x cs =>
      (if String.eqb t RECORD_TAG
       then match x, cs with None, [] => true | _, _ => false end
       else true)
      && forallb records_cleared cs
  end.

(** Induction on a tree, with the hypothesis for every child. *)
Fixpoint Element_nested_ind (P : Element → Prop)
    (step : ∀ t x cs, Forall P cs → P (Elem t x cs)) (e : Element) : P e :=
  match e with
  | Elem t x cs =>
      step t x cs
        ((fix children_ok (cs : list Element) : Forall P cs :=
            match cs with
            | [] => @List.Forall_nil _ P
            | c :: cs' =>
                @List.Forall_cons _ P c cs' (Element_nested_ind P step c)
                            (children_ok cs')
            end) cs)
  end.

End XmlParser.

(** ** Generators *)

(** A Python generator seen through [next()]: resumed in a state, it either
    yields a value and suspends in a new state, or it is exhausted. *)
Definition generator (St A : Type) : Type := St → option (A * St).

(** [list(g)]: the values yielded until exhaustion. *)
Inductive yields {St A : Type} (g : generator St A) : St → list A → Prop :=
  | yields_stop s :
      g s = None → yields g s []
  | yields_next s a s' l :
      g s = Some (a, s') → yields g s' l → yields g s (a :: l).

(** [for item in upstream: yield f(item)] *)
Definition for_yield {St A B : Type} (f : A → B) (upstream : generator St A)
  : generator St B :=
  fun s =>
    match upstream s with
    | Some (item, s') => Some (f item, s')
    | None => None
    end.

(** [iter(l)] for a list. *)
Definition list_iter {A : Type} : generator (list A) A :=
  fun l => match l with [] => None | a :: l' => Some (a, l') end.

(** ** Parser *)

Inductive parser_class : Type := CsvParser_class | XmlParser_class.

Record parser_data : Type := {
  parser : parser_class;
  model_mapping : FormatMapping
}.

Definition PARSERS_DATA : gmap string parser_data :=
  {[ CSV := {| parser := CsvParser_class; model_mapping := MODEL_TO_CSV_DICT |};
     XML := {| parser := XmlParser_class; model_mapping := MODEL_TO_XML_DICT |} ]}.

(** The files as the two decoding libraries see them: the chunks pandas
    reads from a path and the tree lxml reads from it, [None] when the file
    is missing or cannot be decoded. *)
Record World : Type := {
  read_csv : string → option (list CsvParser.DataFrame);
  iterparse : string → option XmlParser.Element
}.

Module Parser.

Record t : Type := {
  _parser : parser_class;
  format : string
}.

(** [Parser.__init__] *)
Definition init (data_format : string) : result t :=
  match PARSERS_DATA !! data_format with
  | Some d => Ok {| _parser := parser d; format := data_format |}
  | None => Raise (ValueError ("No parser for " ++ data_format ++ " format")%string)
  end.

(** The dict comprehension of [coerce_model] for one [item]: an entry is
    kept when [concrete_format_name and item.get(concrete_format_name)], and
    then holds [item[concrete_format_name]]. *)
Definition coerce_item (mapping : FormatMapping) (item : RawRecord)
  : CanonicalRecord :=
  foldl (fun out entry =>
           let '(model_name, concrete_format_name) := entry in
           match concrete_format_name with
           | Some name =>
               if name_truthy concrete_format_name
               then match item !! name with
                    | Some v => if truthy v then <[model_name := v]> out else out
                    | None => out
                    end
               else out
           | None => out
           end) ∅ mapping.

(** What one mapping entry contributes for [item]. *)
Definition entry_value (item : RawRecord) (native : option string)
  : option pyval :=
  match native with
  | Some name =>
      if name_truthy native
      then match item !! name with
           | Some v => if truthy v then Some v else None
           | None => None
           end
      else None
  | None => None
  end.

Definition kept_entries (mapping : FormatMapping) (item : RawRecord)
  : list (string * pyval) :=
  omap (fun e => pair e.1 <$> entry_value item e.2) mapping.

(** A mapping that is a dict (no key twice) and whose native names, where
    defined, are non-empty strings. *)
Definition mapping_ok (mapping : FormatMapping) : Prop :=
  NoDup mapping.*1 ∧
  Forall (fun e => e.2 = None ∨ name_truthy e.2 = true) mapping.

(** The canonical field names: the keys of the mapping dicts. *)
Definition canonical_fields : list string := MODEL_TO_CSV_DICT.*1.

(** [coerce_model] as the generator it is. *)
Definition coerce_model_gen {St : Type} (mapping : FormatMapping)
    (parsed_data : generator St RawRecord) : generator St CanonicalRecord :=
  for_yield (coerce_item mapping) parsed_data.

(** [coerce_model] on the sequence [parsed_data] yields. *)
Definition coerce_model (self : t) (parsed_data : list RawRecord)
  : result (list CanonicalRecord) :=
  match PARSERS_DATA !! format self with
  | Some d => Ok (map (coerce_item (model_mapping d)) parsed_data)
  | None => Raise (KeyError (format self))
  end.

(** [self._parser.parse(path)] *)
Definition parser_parse (c : parser_class) (w : World) (path : string)
  : result (list RawRecord) :=
  match c with
  | CsvParser_class => CsvParser.parse (read_csv w) path
  | XmlParser_class => XmlParser.parse (iterparse w) path
  end.

(** [Parser.parse] *)
Definition parse (self : t) (w : World) (path : string)
  : result (list CanonicalRecord) :=
  parsed_data ← parser_parse (_parser self) w path;
  coerce_model self parsed_data.

(** [Parser(data_format).parse(path)], as the main block and the tests
    call it. *)
Definition run (data_format : string) (w : World) (path : string)
  : result (list CanonicalRecord) :=
  self ← init data_format;
  parse self w path.

End Parser.

(** ** MongoStorage *)

Module MongoStorage.

(** A document of the collection: the [_id] the server allotted and the
    fields of the record that was written.  Records written by this module
    carry canonical field names only, so [_id] is never among their keys. *)
Record StoredDocument : Type := {
  _id : N;
  body : CanonicalRecord
}.

Record IndexSpec : Type := {
  key : string;
  unique : bool
}.

#[global] Instance IndexSpec_eq_dec : EqDecision IndexSpec.
Proof. solve_decision. Defined.

(** [self.collection]: documents in natural order, the next [_id] the
    server hands out, and the indexes by name ([index_information()]). *)
Record Collection : Type := {
  docs : list StoredDocument;
  next_oid : N;
  indexes : gmap string IndexSpec
}.

(** One [bulk.find({"id": k}).upsert().replace_one(doc)]. *)
Record UpsertOp : Type := {
  selector : pyval;
  replacement : CanonicalRecord
}.

(** The value a query sees for a field: a missing field reads as null. *)
Definition field_or_null (d : CanonicalRecord) (f : string) : pyval :=
  default PNone (d !! f).

(** The loop of [store]: [doc["id"]] raises [KeyError] on a record without
    the key, which ends the loop. *)
Fixpoint assemble (data : list CanonicalRecord) : result (list UpsertOp) :=
  match data with
  | [] => Ok []
  | doc :: data' =>
      match doc !! "id" with
      | Some k =>
          ops ← assemble data';
          Ok ({| selector := k; replacement := doc |} :: ops)
      | None => Raise (KeyError "id")
      end
  end.

(** pymongo names an index after its key pattern: [create_index('id')]
    creates the ascending index [id_1]. *)
Definition gen_index_name (field : string) : string := (field ++ "_1")%string.


Section Engine.
(** Equality of values as the server's query matcher decides it. *)
Variable bson_eqb : pyval → pyval → bool.
(** The order in which the server applies an unordered batch. *)
Variable schedule : list UpsertOp → list UpsertOp.

Definition matches (x : StoredDocument) (k : pyval) : bool :=
  bson_eqb (field_or_null (body x) "id") k.

(** Replace the first document matching [{"id": k}] by [d], keeping its
    [_id]; [None] when no document matches. *)
Fixpoint replace_one (k : pyval) (d : CanonicalRecord)
    (l : list StoredDocument) : option (list StoredDocument) :=
  match l with
  | [] => None
  | x :: l' =>
      if matches x k
      then Some ({| _id := _id x; body := d |} :: l')
      else cons x <$> replace_one k d l'
  end.

(** Upsert: replace the matching document, or insert [d] at the end. *)
Definition upsert (c : Collection) (op : UpsertOp) : Collection :=
  match replace_one (selector op) (replacement op) (docs c) with
  | Some l' => {| docs := l'; next_oid := next_oid c; indexes := indexes c |}
  | None =>
      {| docs := docs c ++ [{| _id := next_oid c; body := replacement op |}];
         next_oid := N.succ (next_oid c);
         indexes := indexes c |}
  end.

(** [bulk.execute()]: an empty batch is refused, otherwise every operation
    is applied, in the order the server picked. *)
Definition execute (ops : list UpsertOp) (c : Collection)
  : result unit * Collection :=
  match ops with
  | [] => (Raise (InvalidOperation "No operations to execute"), c)
  | _ => (Ok tt, foldl upsert c (schedule ops))
  end.

(** [MongoStorage.store] *)
Definition store (data : list CanonicalRecord) (c : Collection)
  : result unit * Collection :=
  match assemble data with
  | Ok ops => execute ops c
  | Raise e => (Raise e, c)
  end.

(** No two documents agree on [field]: what a unique index demands. *)
Fixpoint distinct_on (field : string) (l : list StoredDocument) : bool :=
  match l with
  | [] => true
  | x :: l' =>
      forallb (fun y => negb (bson_eqb (field_or_null (body y) field)
                                       (field_or_null (body x) field))) l'
      && distinct_on field l'
  end.

(** [collection.create_index(field, unique=...)]: creating an index that
    exists under the generated name with the same specification changes
    nothing; the same name with another specification, the same key
    under another name, or a unique index over documents that collide,
    is refused by the server. *)
Definition create_index (field : string) (uniq : bool) (c : Collection)
  : result Collection :=
  let name := gen_index_name field in
  let spec := {| key := field; unique := uniq |} in
  match indexes c !! name with
  | Some old =>
      if decide (old = spec) then Ok c
      else Raise (OperationFailure "index exists with different options")
  | None =>
      if decide (map_Exists (fun _ i => key i = field) (indexes c))
      then Raise (OperationFailure "index exists with a different name")
      else if uniq && negb (distinct_on field (docs c))
      then Raise (OperationFailure "duplicate key")
      else Ok {| docs := docs c; next_oid := next_oid c;
                 indexes := <[name := spec]> (indexes c) |}
  end.

(** [MongoStorage.__init__], on the collection it connects to. *)
Definition init (c : Collection) : result Collection :=
  let index_name := "id" in
  if decide (index_name ∉ dom (indexes c))
  then create_index index_name true c
  else Ok c.

(** The document the selector [{"id": k}] finds: the first that matches. *)
Definition find_one (k : pyval) (l : list StoredDocument)
  : option StoredDocument :=
  List.find (fun x => matches x k) l.

(** An operation whose selector is the id of its replacement. *)
Definition wf_op (op : UpsertOp) : Prop :=
  bson_eqb (field_or_null (replacement op) "id") (selector op) = true.

(** Does the query [{"id": k}] find a document? *)
Definition present (k : pyval) (l : list StoredDocument) : bool :=
  existsb (fun x => matches x k) l.

(** Does a later operation of the batch carry a selector of [a]'s class? *)
Definition overwritten (a : UpsertOp) (ops : list UpsertOp) : bool :=
  existsb (fun b => bson_eqb (selector a) (selector b)) ops.

(** Batches in which no two operations select the same class. *)
Definition distinct_selectors (ops : list UpsertOp) : Prop :=
  NoDup ops ∧
  ∀ a b, a ∈ ops → b ∈ ops →
         bson_eqb (selector a) (selector b) = true → a = b.

(** Records no two of which carry the same id. *)
Definition distinct_ids (data : list CanonicalRecord) : Prop :=
  NoDup data ∧
  ∀ d1 d2, d1 ∈ data → d2 ∈ data →
           bson_eqb (field_or_null d1 "id") (field_or_null d2 "id") = true →
           d1 = d2.

End Engine.

(** The index [__init__] asks for. *)
Definition id_index : IndexSpec := {| key := "id"; unique := true |}.

(** Value equality on the nose, and a server that applies a batch in the
    order it was built. *)
Definition py_eqb (a b : pyval) : bool := bool_decide (a = b).
Definition in_order (ops : list UpsertOp) : list UpsertOp := ops.

End MongoStorage.

(** ** The main block *)

Module Main.

(** The files of the main block, in the order of its list. *)
Definition FILES : list (string * string) :=
  [ ("csv", "../tests/samples/products_full.txt");
    ("xml", "../tests/samples/products_full.xml") ].

(** The [for] loop of the main block over the remaining files.  Whatever
    is raised while a file is parsed or stored leaves the loop (it is
    caught by [except Exception] and handed to [sys.exit]). *)
Fixpoint loop (bson_eqb : pyval → pyval → bool)
    (schedule : list MongoStorage.UpsertOp → list MongoStorage.UpsertOp)
    (w : World) (files : list (string * string))
    (c : MongoStorage.Collection) : result unit * MongoStorage.Collection :=
  match files with
  | [] => (Ok tt, c)
  | (data_format, path) :: files' =>
      match Parser.run data_format w path with
      | Ok data =>
          match MongoStorage.store bson_eqb schedule data c with
          | (Ok _, c') => loop bson_eqb schedule w files' c'
          | (Raise e, c') => (Raise e, c')
          end
      | Raise e => (Raise e, c)
      end
  end.

(** The main block: [Ok] is the run that prints "All done!", [Raise e] the
    run that ends in [sys.exit(e)]; with it, the collection left behind. *)
Definition main (bson_eqb : pyval → pyval → bool)
    (schedule : list MongoStorage.UpsertOp → list MongoStorage.UpsertOp)
    (w : World) (c : MongoStorage.Collection)
  : result unit * MongoStorage.Collection :=
  match MongoStorage.init bson_eqb c with
  | Ok c1 => loop bson_eqb schedule w FILES c1
  | Raise e => (Raise e, c)
  end.

End Main.

(** ** Sample inputs *)

(** The element of the XML scenario. *)
Definition book_element : XmlParser.Element :=
  XmlParser.Elem "item_basic_data" None
    [ XmlParser.Elem "item_unique_id" (Some "42") [];
      XmlParser.Elem "item_title" (Some "Book") [] ].

(** A record element whose only child has no text. *)
Definition untitled_element : XmlParser.Element :=
  XmlParser.Elem "item_basic_data" None [ XmlParser.Elem "item_title" None [] ].

Module Samples.

Definition xml_parser : Parser.t :=
  {| Parser._parser := XmlParser_class; Parser.format := "xml" |}.

Definition xml_data : parser_data :=
  {| parser := XmlParser_class; model_mapping := MODEL_TO_XML_DICT |}.

Definition book_item : RawRecord :=
  {[ "item_unique_id" := PStr "42"; "item_title" := PStr "Book" ]}.

Definition book_record : CanonicalRecord :=
  {[ "id" := PStr "42"; "title" := PStr "Book" ]}.

Definition untitled_item : RawRecord := {[ "item_title" := PNone ]}.

(** A world whose only file is the XML scenario. *)
Definition one_book_world : World :=
  {| read_csv := fun _ => None;
     iterparse := fun path =>
       if String.eqb path "products.xml"
       then Some (XmlParser.Elem "products" None [book_element])
       else None |}.

(** A frame of one short line: two fields, the other columns missing. *)
Definition short_line : list pyval := [ PStr "123"; PStr "Widget" ].

Definition one_row_frame : CsvParser.DataFrame :=
  {| CsvParser.columns := CsvParser.HEADERS_CSV;
     CsvParser.rows :=
       [ CsvParser.pad_row (length CsvParser.HEADERS_CSV) short_line ] |}.

Definition empty_collection : MongoStorage.Collection :=
  {| MongoStorage.docs := [];
     MongoStorage.next_oid := 0%N;
     MongoStorage.indexes :=
       {[ "_id_" := {| MongoStorage.key := "_id";
                       MongoStorage.unique := true |} ]} |}.

Definition indexed_collection : MongoStorage.Collection :=
  {| MongoStorage.docs := [];
     MongoStorage.next_oid := 0%N;
     MongoStorage.indexes :=
       <[ "id_1" := MongoStorage.id_index ]>
         (MongoStorage.indexes empty_collection) |}.

(** Two records with the same id and one more. *)
Definition three_records : list CanonicalRecord :=
  [ {[ "id" := PStr "1"; "title" := PStr "A" ]};
    {[ "id" := PStr "1"; "title" := PStr "B" ]};
    {[ "id" := PStr "2" ]} ].

Definition no_id_records : list CanonicalRecord :=
  [ {[ "id" := PStr "1" ]}; {[ "title" := PStr "x" ]} ].

End Samples.

(** More sample inputs. *)
Module Samples2.

Definition extended_book_item : RawRecord :=
  <[ "colour" := PStr "red" ]> Samples.book_item.

(** The record of the one-row frame. *)
Definition short_record : RawRecord :=
  CsvParser.row_to_dict CsvParser.HEADERS_CSV
    (map (CsvParser.fill_value (PStr ""))
       (CsvParser.pad_row (length CsvParser.HEADERS_CSV) Samples.short_line)).

Definition two_row_frame : CsvParser.DataFrame :=
  {| CsvParser.columns := CsvParser.HEADERS_CSV;
     CsvParser.rows :=
       [ CsvParser.pad_row (length CsvParser.HEADERS_CSV) Samples.short_line;
         CsvParser.pad_row (length CsvParser.HEADERS_CSV) Samples.short_line ] |}.

(** A frame whose only row has no product_id. *)
Definition no_id_frame : CsvParser.DataFrame :=
  {| CsvParser.columns := CsvParser.HEADERS_CSV;
     CsvParser.rows := [ CsvParser.pad_row (length CsvParser.HEADERS_CSV) [] ] |}.

Definition csv_path : string := "../tests/samples/products_full.txt".
Definition xml_path : string := "../tests/samples/products_full.xml".

(** The files of the main block: a good one-row CSV file and the XML
    scenario. *)
Definition good_world : World :=
  {| read_csv := fun path =>
       if String.eqb path csv_path then Some [Samples.one_row_frame] else None;
     iterparse := fun path =>
       if String.eqb path xml_path
       then Some (XmlParser.Elem "products" None [book_element])
       else None |}.

(** The same with a CSV row without product_id. *)
Definition bad_csv_world : World :=
  {| read_csv := fun path =>
       if String.eqb path csv_path then Some [no_id_frame] else None;
     iterparse := iterparse good_world |}.

(** The same with an XML item without item_unique_id. *)
Definition bad_xml_world : World :=
  {| read_csv := read_csv good_world;
     iterparse := fun path =>
       if String.eqb path xml_path
       then Some (XmlParser.Elem "products" None [untitled_element])
       else None |}.

Definition csv_records : list CanonicalRecord :=
  map (Parser.coerce_item MODEL_TO_CSV_DICT)
      (CsvParser.parse_chunks [Samples.one_row_frame]).

Definition after_csv : MongoStorage.Collection :=
  (MongoStorage.store MongoStorage.py_eqb MongoStorage.in_order
     csv_records Samples.indexed_collection).2.

Definition record_1A : CanonicalRecord :=
  {[ "id" := PStr "1"; "title" := PStr "A" ]}.
Definition record_1B : CanonicalRecord :=
  {[ "id" := PStr "1"; "title" := PStr "B" ]}.
Definition record_2 : CanonicalRecord := {[ "id" := PStr "2" ]}.

Definition document_9 : MongoStorage.StoredDocument :=
  {| MongoStorage._id := 0%N; MongoStorage.body := {[ "id" := PStr "9" ]} |}.

Definition one_document : MongoStorage.Collection :=
  {| MongoStorage.docs := [document_9];
     MongoStorage.next_oid := 1%N;
     MongoStorage.indexes := MongoStorage.indexes Samples.indexed_collection |}.

Definition nested_before : list XmlParser.Element :=
  [ XmlParser.Elem "a" (Some "1") [] ].
Definition nested_inner : XmlParser.Element :=
  XmlParser.Elem "item_basic_data" (Some "t")
    [ XmlParser.Elem "b" (Some "2") [] ].
Definition nested_after : list XmlParser.Element :=
  [ XmlParser.Elem "c" (Some "3") [] ].

End Samples2.

(** * Properties *)

(** ** The dictionaries built by folding insertions *)

Section FoldInsert.
Context {V : Type}.
Implicit Types (acc : gmap string V) (kvs : list (string * V)).

Lemma foldl_put_snoc acc kvs kv :
  foldl put acc (kvs ++ [kv]) = <[kv.1 := kv.2]> (foldl put acc kvs).
Proof. by rewrite foldl_app. Qed.

Lemma foldl_put_notin acc kvs k :
  k ∉ kvs.*1 → foldl put acc kvs !! k = acc !! k.
Proof.
  revert acc. induction kvs as [|[k' v] kvs IH]; intros acc Hk; [done|].
  cbn in Hk. apply not_elem_of_cons in Hk as [Hne Hk].
  cbn. rewrite IH by done. unfold put. cbn. by rewrite lookup_insert_ne.
Qed.

(** With several entries for a key, the last one is read back. *)
Lemma foldl_put_last acc kvs1 kvs2 k v :
  k ∉ kvs2.*1 → foldl put acc (kvs1 ++ (k, v) :: kvs2) !! k = Some v.
Proof.
  intros Hk. rewrite foldl_app. cbn.
  rewrite foldl_put_notin by done. unfold put. cbn. apply lookup_insert_eq.
Qed.
End FoldInsert.

(** ** CsvParser: the schema and the records of a frame *)

Module CsvFacts.
Import CsvParser.

Lemma HEADERS_CSV_NoDup : NoDup HEADERS_CSV.
Proof. apply (bool_decide_unpack _). vm_compute. reflexivity. Qed.

Lemma zip_fst_elem {A B} (l : list A) (k : list B) x :
  x ∈ (zip l k).*1 → x ∈ l.
Proof.
  intros [[a b] [-> Hin]]%list_elem_of_fmap. cbn.
  by apply elem_of_zip_l in Hin.
Qed.

Lemma zip_lookup_acc names cells (acc : RawRecord) i name :
  NoDup names → names !! i = Some name →
  foldl put acc (zip names cells) !! name =
    match cells !! i with Some v => Some v | None => acc !! name end.
Proof.
  revert cells acc i.
  induction names as [|n ns IH]; intros cells acc i Hnd Hi; [done|].
  apply NoDup_cons in Hnd as [Hn Hnd].
  destruct cells as [|c cs]; [by destruct i|].
  destruct i as [|j]; cbn in *.
  - injection Hi as ->. rewrite foldl_put_notin.
    + unfold put. cbn. apply lookup_insert_eq.
    + intros Hin. by apply zip_fst_elem in Hin.
  - rewrite (IH cs _ j) by done. destruct (cs !! j); [done|].
    unfold put. cbn. apply lookup_insert_ne.
    intros ->. apply Hn. by eapply list_elem_of_lookup_2.
Qed.

(** A row is decoded against the column names in order. *)
Lemma row_to_dict_lookup names cells i name :
  NoDup names → names !! i = Some name →
  row_to_dict names cells !! name = cells !! i.
Proof.
  intros Hnd Hi. unfold row_to_dict.
  change (foldl put ∅ (zip names cells) !! name = cells !! i).
  rewrite (zip_lookup_acc _ _ _ i) by done. by destruct (cells !! i).
Qed.

Abbreviation fill := (fill_value (PStr "")).

Lemma parse_chunks_rows chunks :
  Forall frame_ok chunks →
  parse_chunks chunks =
    map (fun cells => row_to_dict HEADERS_CSV (map fill cells)) (all_rows chunks).
Proof.
  induction 1 as [|df chunks [Hcols _] _ IH]; [done|].
  change (parse_chunks (df :: chunks))
    with (to_dict_records (fillna (PStr "") df) ++ parse_chunks chunks).
  change (all_rows (df :: chunks)) with (rows df ++ all_rows chunks).
  rewrite map_app, <- IH. f_equal.
  unfold to_dict_records, fillna. cbn. rewrite Hcols, map_map. done.
Qed.

Lemma all_rows_width chunks cells :
  Forall frame_ok chunks → cells ∈ all_rows chunks →
  length cells = length HEADERS_CSV.
Proof.
  intros Hok Hin. unfold all_rows in Hin.
  apply list_elem_of_In, in_flat_map in Hin as (df & Hdf & Hin).
  apply list_elem_of_In in Hdf, Hin.
  rewrite Forall_forall in Hok. destruct (Hok _ Hdf) as [_ Hrows].
  rewrite Forall_forall in Hrows. by apply Hrows.
Qed.

Lemma fill_not_na c : isna (fill c) = false.
Proof. unfold fill_value. destruct (isna c) eqn:E; done. Qed.

End CsvFacts.

(** C5 (as counted in the source): the delimited-text schema
    [HEADERS_CSV] has exactly 38 pairwise distinct column names, and a row
    is decoded against them in order: the record built from a row holds,
    under the i-th column name, the i-th cell of the row. *)
Theorem HEADERS_CSV_schema :
  length CsvParser.HEADERS_CSV = 38 ∧
  NoDup CsvParser.HEADERS_CSV ∧
  ∀ (cells : list pyval) (i : nat) (name : string),
    CsvParser.HEADERS_CSV !! i = Some name →
    CsvParser.row_to_dict CsvParser.HEADERS_CSV cells !! name = cells !! i.
Proof.
  split; [reflexivity|]. split; [apply CsvFacts.HEADERS_CSV_NoDup|].
  intros cells i name Hi.
  by apply CsvFacts.row_to_dict_lookup; [apply CsvFacts.HEADERS_CSV_NoDup|].
Qed.

(** C5, as the specification words it, fails: the schema does not have 37
    columns. *)
Lemma HEADERS_CSV_not_37 : length CsvParser.HEADERS_CSV ≠ 37.
Proof. vm_compute. discriminate. Qed.

(** C9: given the frames pandas read, [CsvParser.parse] yields one record
    per row, in the order of the rows; in the record of a row every column
    name is present, holding the row's cell, or the empty string where the
    cell was missing (None or NaN), so no field is absent or null; in
    particular the trailing columns of a short line read as the empty
    string. *)
Theorem CsvParser_parse_rows (chunks : list CsvParser.DataFrame) :
  Forall CsvParser.frame_ok chunks →
  let recs := CsvParser.parse_chunks chunks in
  length recs = length (CsvParser.all_rows chunks) ∧
  (∀ i cells, CsvParser.all_rows chunks !! i = Some cells →
     ∃ rec, recs !! i = Some rec ∧
       ∀ j name, CsvParser.HEADERS_CSV !! j = Some name →
         ∃ c, cells !! j = Some c ∧
              rec !! name = Some (if CsvParser.isna c then PStr "" else c)) ∧
  (∀ rec name, rec ∈ recs → name ∈ CsvParser.HEADERS_CSV →
     ∃ v, rec !! name = Some v ∧ CsvParser.isna v = false) ∧
  (∀ i fields j name,
     CsvParser.all_rows chunks !! i =
       Some (CsvParser.pad_row (length CsvParser.HEADERS_CSV) fields) →
     CsvParser.HEADERS_CSV !! j = Some name → (length fields ≤ j)%nat →
     ∃ rec, recs !! i = Some rec ∧ rec !! name = Some (PStr "")).
Proof.
  intros Hok recs. subst recs. rewrite CsvFacts.parse_chunks_rows by done.
  assert (Hcell : ∀ cells j name,
            cells ∈ CsvParser.all_rows chunks →
            CsvParser.HEADERS_CSV !! j = Some name →
            ∃ c, cells !! j = Some c ∧
              CsvParser.row_to_dict CsvParser.HEADERS_CSV
                (map CsvFacts.fill cells) !! name = Some (CsvFacts.fill c)).
  { intros cells j name Hin Hj.
    pose proof (CsvFacts.all_rows_width _ _ Hok Hin) as Hlen.
    destruct (lookup_lt_is_Some_2 cells j) as [c Hc].
    { rewrite Hlen. by eapply lookup_lt_Some. }
    exists c. split; [done|].
    rewrite (CsvFacts.row_to_dict_lookup _ _ j)
      by (done || apply CsvFacts.HEADERS_CSV_NoDup).
    change (map CsvFacts.fill cells) with (CsvFacts.fill <$> cells).
    by rewrite list_lookup_fmap, Hc. }
  split; [by rewrite length_map|]. split; [|split].
  - intros i cells Hi. eexists. split.
    + change (map ?f ?l) with (f <$> l). by rewrite list_lookup_fmap, Hi.
    + intros j name Hj. apply Hcell; [by eapply list_elem_of_lookup_2|done].
  - intros rec name Hrec Hname.
    apply list_elem_of_In, in_map_iff in Hrec as (cells & <- & Hin).
    apply list_elem_of_In in Hin.
    apply list_elem_of_lookup in Hname as [j Hj].
    destruct (Hcell cells j name Hin Hj) as (c & _ & ->).
    eexists. split; [done|]. apply CsvFacts.fill_not_na.
  - intros i fields j name Hi Hj Hlen. eexists. split.
    + change (map ?f ?l) with (f <$> l). by rewrite list_lookup_fmap, Hi.
    + cbn beta.
      destruct (Hcell _ j name (list_elem_of_lookup_2 _ _ _ Hi) Hj)
        as (c & Hc & ->).
      unfold CsvParser.pad_row in Hc.
      rewrite lookup_app_r in Hc by done.
      apply lookup_replicate in Hc as [-> _]. done.
Qed.

(** ** XmlParser: the record of an element and the walk over a tree *)

Module XmlFacts.
Import XmlParser.

Lemma record_of_fold elem :
  record_of elem = foldl put ∅ (map field_of (children elem)).
Proof.
  unfold record_of. generalize (∅ : RawRecord).
  induction (children elem) as [|c cs IH]; intros acc; [done|].
  cbn. by rewrite IH.
Qed.

(** The value under a tag is the text of the last child with that tag. *)
Lemma record_of_last elem cs1 c cs2 :
  children elem = cs1 ++ c :: cs2 →
  Forall (fun c' => tag c' ≠ tag c) cs2 →
  record_of elem !! tag c = Some (text_value (text c)).
Proof.
  intros Hcs Hlast. rewrite record_of_fold, Hcs, map_app. cbn.
  apply (foldl_put_last _ _ _ (tag c)).
  intros [[k v] [Hk Hin]]%list_elem_of_fmap. cbn in Hk. subst k.
  apply list_elem_of_In, in_map_iff in Hin as (c' & [= Ht _] & Hin).
  apply list_elem_of_In in Hin. rewrite Forall_forall in Hlast.
  by apply (Hlast c').
Qed.

(** A tag no child carries is not a key. *)
Lemma record_of_absent elem t :
  Forall (fun c => tag c ≠ t) (children elem) → record_of elem !! t = None.
Proof.
  intros Hno. rewrite record_of_fold, foldl_put_notin; [done|].
  intros [[k v] [Hk Hin]]%list_elem_of_fmap. cbn in Hk. subst k.
  apply list_elem_of_In, in_map_iff in Hin as (c' & [= Ht _] & Hin).
  apply list_elem_of_In in Hin. rewrite Forall_forall in Hno.
  by apply (Hno c').
Qed.

Lemma walk_unfold t x cs :
  walk (Elem t x cs) =
    let '(recs, kept) := walk_children cs [] [] in
    let e' := Elem t x kept in
    if String.eqb t RECORD_TAG
    then (recs ++ [record_of e'], clear e')
    else (recs, e').
Proof. reflexivity. Qed.

Lemma walk_children_cons c cs recs kept :
  walk_children (c :: cs) recs kept =
    let '(rc, c') := walk c in
    walk_children cs (recs ++ rc)
      (if String.eqb (tag c) RECORD_TAG then [c'] else kept ++ [c']).
Proof. reflexivity. Qed.

Lemma has_record_tag e :
  has_record e = false → String.eqb (tag e) RECORD_TAG = false.
Proof. destruct e as [t x cs]. cbn. by intros [? _]%orb_false_elim. Qed.

(** A subtree without record elements yields nothing and stays as it is. *)
Lemma walk_no_record e : has_record e = false → walk e = ([], e).
Proof.
  induction e as [t x cs IH] using Element_nested_ind. cbn [has_record].
  intros [Ht Hcs]%orb_false_elim. rewrite walk_unfold.
  assert (Hch : ∀ recs kept,
            walk_children cs recs kept = (recs, kept ++ cs)).
  { clear Ht. induction cs as [|c cs IHcs]; intros recs kept.
    - by rewrite app_nil_r.
    - cbn [existsb] in Hcs. apply orb_false_elim in Hcs as [Hc Hcs].
      apply Forall_cons in IH as [IHc IH].
      rewrite walk_children_cons, (IHc Hc), (has_record_tag _ Hc).
      rewrite IHcs by done. by rewrite app_nil_r, <- app_assoc. }
  rewrite Hch, Ht. done.
Qed.

Lemma containers_no_record e : has_record e = false → containers e = [].
Proof.
  induction e as [t x cs IH] using Element_nested_ind. cbn [has_record].
  intros [Ht Hcs]%orb_false_elim. cbn [containers]. rewrite Ht, app_nil_r.
  induction cs as [|c cs IHcs]; [done|].
  cbn [existsb] in Hcs. apply orb_false_elim in Hcs as [Hc Hcs].
  apply Forall_cons in IH as [IHc IH].
  cbn [flat_map]. rewrite (IHc Hc). by apply IHcs.
Qed.

(** In a tree where no record element lies inside another one, the records
    yielded are those of the record elements, in closing order. *)
Lemma walk_flat e : flat e = true → (walk e).1 = map record_of (containers e).
Proof.
  induction e as [t x cs IH] using Element_nested_ind. cbn [flat].
  rewrite walk_unfold. cbn [containers].
  destruct (String.eqb t RECORD_TAG) eqn:Ht.
  - intros Hcs%negb_true_iff.
    assert (Hall : Forall (fun c => has_record c = false) cs).
    { apply Forall_forall. intros c Hc%list_elem_of_In.
      destruct (has_record c) eqn:E; [|done].
      assert (existsb has_record cs = true) by (apply existsb_exists; eauto).
      congruence. }
    assert (Hch : ∀ recs kept,
              walk_children cs recs kept = (recs, kept ++ cs)).
    { clear IH Hcs. induction Hall as [|c cs Hc _ IHcs]; intros recs kept.
      - by rewrite app_nil_r.
      - rewrite walk_children_cons, (walk_no_record _ Hc).
        rewrite (has_record_tag _ Hc), IHcs.
        by rewrite app_nil_r, <- app_assoc. }
    rewrite Hch. cbn.
    assert (Hnone : flat_map containers cs = []).
    { clear -Hall. induction Hall as [|c cs Hc _ IHcs]; [done|].
      cbn. by rewrite (containers_no_record _ Hc). }
    by rewrite Hnone.
  - intros Hcs. rewrite app_nil_r.
    assert (Hch : ∀ recs kept,
              (walk_children cs recs kept).1 =
                recs ++ map record_of (flat_map containers cs)).
    { induction cs as [|c cs IHcs]; intros recs kept.
      - by rewrite app_nil_r.
      - cbn [forallb] in Hcs. apply andb_prop in Hcs as [Hc Hcs].
        apply Forall_cons in IH as [IHc IH].
        rewrite walk_children_cons. specialize (IHc Hc).
        destruct (walk c) as [rc c'] eqn:Hw. cbn in IHc. subst rc.
        rewrite IHcs by done. cbn [flat_map]. by rewrite map_app, app_assoc. }
    specialize (Hch [] []). destruct (walk_children cs [] []) as [recs kept].
    by cbn in *.
Qed.

End XmlFacts.

(** ** Parser: the registry and the mapper *)

Module ParserFacts.
Import Parser.

Lemma coerce_item_fold mapping item :
  coerce_item mapping item = foldl put ∅ (kept_entries mapping item).
Proof.
  unfold coerce_item. generalize (∅ : CanonicalRecord).
  induction mapping as [|[m native] mapping IH]; intros acc; [done|].
  cbn. rewrite IH. unfold kept_entries. cbn. unfold entry_value.
  destruct native as [name|]; [|done].
  destruct (name_truthy (Some name)); [|done].
  destruct (item !! name) as [v|]; [|done].
  by destruct (truthy v).
Qed.

Lemma kept_entries_keys mapping item k :
  k ∈ (kept_entries mapping item).*1 → k ∈ mapping.*1.
Proof.
  intros [[k' v] [-> Hin]]%list_elem_of_fmap.
  apply list_elem_of_omap in Hin as ([m native] & Hin & Hv).
  cbn in Hv. destruct (entry_value item native); [|done].
  injection Hv as <- _. cbn. apply list_elem_of_fmap. by exists (m, native).
Qed.

(** A canonical name outside the mapping is never produced. *)
Lemma coerce_item_unmapped mapping item k :
  k ∉ mapping.*1 → coerce_item mapping item !! k = None.
Proof.
  intros Hk. rewrite coerce_item_fold, foldl_put_notin; [done|].
  intros Hin. by apply Hk, (kept_entries_keys _ item).
Qed.

(** For a dict (no key twice), a canonical name holds what its entry
    contributes. *)
Lemma coerce_item_lookup mapping item model_name native :
  NoDup mapping.*1 → (model_name, native) ∈ mapping →
  coerce_item mapping item !! model_name = entry_value item native.
Proof.
  intros Hnd (m1 & m2 & ->)%list_elem_of_split.
  rewrite fmap_app, fmap_cons in Hnd. cbn in Hnd.
  apply NoDup_app in Hnd as (_ & Hm1 & [Hm2 _]%NoDup_cons).
  rewrite coerce_item_fold. unfold kept_entries. rewrite omap_app. cbn.
  assert (Hk2 : model_name ∉ (kept_entries m2 item).*1)
    by (intros Hin; by apply kept_entries_keys in Hin).
  destruct (entry_value item native) as [v|]; cbn.
  - by apply foldl_put_last.
  - rewrite foldl_put_notin; [done|].
    rewrite fmap_app. intros [Hin|Hin]%elem_of_app; [|done].
    apply kept_entries_keys in Hin. apply (Hm1 _ Hin). by left.
Qed.

(** The registry has exactly the two formats. *)
Lemma PARSERS_DATA_lookup data_format d :
  PARSERS_DATA !! data_format = Some d →
  (data_format = CSV ∧ model_mapping d = MODEL_TO_CSV_DICT ∧
     parser d = CsvParser_class) ∨
  (data_format = XML ∧ model_mapping d = MODEL_TO_XML_DICT ∧
     parser d = XmlParser_class).
Proof.
  unfold PARSERS_DATA. intros H.
  apply lookup_insert_Some in H as [[<- <-]|[_ H]]; [by left|].
  apply lookup_singleton_Some in H as [<- <-]. by right.
Qed.

Lemma PARSERS_DATA_unknown data_format :
  data_format ≠ CSV → data_format ≠ XML → PARSERS_DATA !! data_format = None.
Proof.
  intros H1 H2. unfold PARSERS_DATA.
  rewrite lookup_insert_ne by done. by apply lookup_singleton_ne.
Qed.

(** Both registered mappings are such. *)
Lemma registered_mapping_ok data_format d :
  PARSERS_DATA !! data_format = Some d → mapping_ok (model_mapping d).
Proof.
  intros [(_ & -> & _)|(_ & -> & _)]%PARSERS_DATA_lookup; split;
    try (apply (bool_decide_unpack _); vm_compute; reflexivity);
    repeat constructor; cbn; auto.
Qed.

Lemma init_registered data_format self :
  init data_format = Ok self →
  format self = data_format ∧
  ∃ d, PARSERS_DATA !! data_format = Some d ∧ _parser self = parser d.
Proof.
  unfold init. destruct (PARSERS_DATA !! data_format) as [d|] eqn:E; [|done].
  intros [= <-]. eauto.
Qed.

Lemma PARSERS_DATA_xml :
  PARSERS_DATA !! XML =
    Some {| parser := XmlParser_class; model_mapping := MODEL_TO_XML_DICT |}.
Proof. reflexivity. Qed.

Lemma PARSERS_DATA_csv :
  PARSERS_DATA !! CSV =
    Some {| parser := CsvParser_class; model_mapping := MODEL_TO_CSV_DICT |}.
Proof. reflexivity. Qed.

(** The two pipelines, unfolded. *)
Lemma run_xml w path :
  run XML w path =
    match iterparse w path with
    | Some root =>
        Ok (map (coerce_item MODEL_TO_XML_DICT) (XmlParser.parse_tree root))
    | None => Raise (IOError path)
    end.
Proof.
  unfold run, init. rewrite PARSERS_DATA_xml. cbn.
  unfold parse, coerce_model, XmlParser.parse. cbn.
  destruct (iterparse w path); reflexivity.
Qed.

Lemma run_csv w path :
  run CSV w path =
    match read_csv w path with
    | Some chunks =>
        Ok (map (coerce_item MODEL_TO_CSV_DICT) (CsvParser.parse_chunks chunks))
    | None => Raise (IOError path)
    end.
Proof.
  unfold run, init. rewrite PARSERS_DATA_csv. cbn.
  unfold parse, coerce_model, CsvParser.parse. cbn.
  destruct (read_csv w path); reflexivity.
Qed.

Lemma yields_for_yield {St A B} (f : A → B) (up : generator St A) s l :
  yields up s l → yields (for_yield f up) s (map f l).
Proof.
  induction 1 as [s Hs|s a s' l Hs _ IH]; cbn.
  - apply yields_stop. unfold for_yield. by rewrite Hs.
  - eapply yields_next; [|exact IH]. unfold for_yield. by rewrite Hs.
Qed.

Lemma yields_list_iter {A} (l : list A) : yields list_iter l l.
Proof.
  induction l as [|a l IH]; [by apply yields_stop|].
  by eapply yields_next.
Qed.

End ParserFacts.

(** C1: for a parser of a registered format, every raw record and every
    entry (canonical name, native name) of the format's mapping: the
    canonical name is a key of the record [coerce_model] produces exactly
    when the native name is defined (not None) and the raw record holds a
    truthy value under it; the value produced is then the raw record's own
    value, unchanged. *)
Theorem coerce_model_field_iff
    (self : Parser.t) (d : parser_data)
    (raws : list RawRecord) (outs : list CanonicalRecord)
    (i : nat) (item : RawRecord) (out : CanonicalRecord)
    (model_name : string) (native : option string) :
  PARSERS_DATA !! Parser.format self = Some d →
  (model_name, native) ∈ model_mapping d →
  Parser.coerce_model self raws = Ok outs →
  raws !! i = Some item →
  outs !! i = Some out →
  (is_Some (out !! model_name) ↔
     ∃ name v, native = Some name ∧ item !! name = Some v ∧ truthy v = true) ∧
  (∀ v, out !! model_name = Some v →
     ∃ name, native = Some name ∧ item !! name = Some v).
Proof.
  intros Hd Hin Hco Hi Ho.
  unfold Parser.coerce_model in Hco. rewrite Hd in Hco. injection Hco as <-.
  change (map ?f ?l) with (f <$> l) in Ho.
  rewrite list_lookup_fmap, Hi in Ho. injection Ho as <-.
  destruct (ParserFacts.registered_mapping_ok _ _ Hd) as [Hnd Hnames].
  rewrite (ParserFacts.coerce_item_lookup _ _ _ native) by done.
  rewrite Forall_forall in Hnames. specialize (Hnames _ Hin). cbn in Hnames.
  unfold Parser.entry_value.
  destruct native as [name|].
  - destruct Hnames as [Hn|Hn]; [done|]. rewrite Hn.
    destruct (item !! name) as [v|] eqn:Ev.
    + destruct (truthy v) eqn:Tv; split.
      * split; [intros _; by exists name, v|by eauto].
      * intros ? [= <-]. by exists name.
      * split; [by intros [? ?]|].
        intros (n & v' & [= <-] & Hv & Tv'). congruence.
      * done.
    + split; [|done]. split; [by intros [? ?]|].
      intros (n & v' & [= <-] & Hv & _). congruence.
  - split; [|done]. split; [by intros [? ?]|]. by intros (? & ? & ? & _).
Qed.

(** For text values, truthy is non-empty. *)
Lemma truthy_PStr s : truthy (PStr s) = true ↔ s ≠ "".
Proof.
  unfold truthy. rewrite negb_true_iff. apply String.eqb_neq.
Qed.

(** C3: a format tag other than "csv" and "xml" makes [Parser.__init__]
    raise ValueError, so that [Parser(tag).parse(path)] ends in that error
    whatever the path and whatever the files hold; "json" is such a tag;
    for "csv" and "xml" construction succeeds. *)
Theorem Parser_init_unknown_format :
  (∀ data_format : string,
     data_format ≠ "csv" → data_format ≠ "xml" →
     Parser.init data_format =
       Raise (ValueError ("No parser for " ++ data_format ++ " format")%string) ∧
     ∀ (w : World) (path : string),
       Parser.run data_format w path =
         Raise (ValueError ("No parser for " ++ data_format ++ " format")%string)) ∧
  Parser.init "json" = Raise (ValueError "No parser for json format") ∧
  Parser.init "csv" =
    Ok {| Parser._parser := CsvParser_class; Parser.format := "csv" |} ∧
  Parser.init "xml" =
    Ok {| Parser._parser := XmlParser_class; Parser.format := "xml" |}.
Proof.
  split; [|by vm_compute].
  intros data_format Hcsv Hxml.
  assert (Hinit : Parser.init data_format =
            Raise (ValueError ("No parser for " ++ data_format ++ " format")%string)).
  { unfold Parser.init. by rewrite ParserFacts.PARSERS_DATA_unknown. }
  split; [done|]. intros w path. unfold Parser.run. by rewrite Hinit.
Qed.

(** C4: for a parser of a registered format, [coerce_model] turns a
    sequence of raw records into a sequence of the same length whose i-th
    record is the image of the i-th raw record alone under the format's
    mapping; as a generator, it yields exactly that sequence whenever the
    upstream generator yields the raw records, and it has no state of its
    own besides the upstream's. *)
Theorem coerce_model_one_to_one
    (self : Parser.t) (d : parser_data) (raws : list RawRecord) :
  PARSERS_DATA !! Parser.format self = Some d →
  ∃ outs : list CanonicalRecord,
    Parser.coerce_model self raws = Ok outs ∧
    length outs = length raws ∧
    (∀ i, outs !! i = Parser.coerce_item (model_mapping d) <$> raws !! i) ∧
    (∀ raws1 raws2 outs1 outs2,
       raws = raws1 ++ raws2 →
       Parser.coerce_model self raws1 = Ok outs1 →
       Parser.coerce_model self raws2 = Ok outs2 →
       outs = outs1 ++ outs2) ∧
    (∀ (St : Type) (upstream : generator St RawRecord) (s : St),
       yields upstream s raws →
       yields (Parser.coerce_model_gen (model_mapping d) upstream) s outs).
Proof.
  intros Hd. unfold Parser.coerce_model. rewrite Hd. eexists.
  split; [done|]. split; [by rewrite length_map|]. split; [|split].
  - intros i. change (map ?f ?l) with (f <$> l). apply list_lookup_fmap.
  - intros raws1 raws2 outs1 outs2 -> [= <-] [= <-]. apply map_app.
  - intros St upstream s Hy. by apply ParserFacts.yields_for_yield.
Qed.



(** C8 fails as stated: a child without text is not left out of the raw
    record, it is a key whose value is None. *)
Lemma None_text_child_is_kept :
  XmlParser.parse_tree untitled_element = [ {[ "item_title" := PNone ]} ] ∧
  ¬ (∀ rec : RawRecord,
       rec ∈ XmlParser.parse_tree untitled_element →
       rec !! "item_title" = None).
Proof.
  assert (H : XmlParser.parse_tree untitled_element =
                [ {[ "item_title" := PNone ]} ]) by (vm_compute; reflexivity).
  split; [exact H|]. rewrite H. intros Hall.
  specialize (Hall _ (list_elem_of_here _ _)). by vm_compute in Hall.
Qed.

(** C8 (as the code has it): in a tree where no record element lies inside
    another one, the parser yields one raw record per record element, in
    closing order, built from the element's immediate children: the value
    under a tag is the text of the last child carrying it, a tag no child
    carries is not a key, and a child whose text is None is a key with the
    value None.  It is [coerce_model] that drops such a field afterwards. *)
Theorem XmlParser_record_fields :
  (∀ root : XmlParser.Element,
     XmlParser.flat root = true →
     XmlParser.parse_tree root =
       map XmlParser.record_of (XmlParser.containers root)) ∧
  (∀ (elem : XmlParser.Element) cs1 c cs2,
     XmlParser.children elem = cs1 ++ c :: cs2 →
     Forall (fun c' => XmlParser.tag c' ≠ XmlParser.tag c) cs2 →
     XmlParser.record_of elem !! XmlParser.tag c =
       Some (XmlParser.text_value (XmlParser.text c)) ∧
     (XmlParser.text c = None →
      XmlParser.record_of elem !! XmlParser.tag c = Some PNone)) ∧
  (∀ (elem : XmlParser.Element) (t : string),
     Forall (fun c => XmlParser.tag c ≠ t) (XmlParser.children elem) →
     XmlParser.record_of elem !! t = None) ∧
  (∀ (item : RawRecord) (model_name name : string),
     (model_name, Some name) ∈ MODEL_TO_XML_DICT →
     item !! name = Some PNone →
     Parser.coerce_item MODEL_TO_XML_DICT item !! model_name = None).
Proof.
  split; [|split; [|split]].
  - intros root Hflat. by apply XmlFacts.walk_flat.
  - intros elem cs1 c cs2 Hcs Hlast.
    pose proof (XmlFacts.record_of_last _ _ _ _ Hcs Hlast) as H.
    split; [done|]. intros Hnone. by rewrite H, Hnone.
  - intros elem t. apply XmlFacts.record_of_absent.
  - intros item model_name name Hin Hitem.
    rewrite (ParserFacts.coerce_item_lookup _ _ _ (Some name)); [| |done].
    + unfold Parser.entry_value. rewrite Hitem.
      by destruct (name_truthy (Some name)).
    + apply (bool_decide_unpack _). vm_compute. reflexivity.
Qed.

(** When a record element lies inside another one, the inner element is
    cleared and its earlier siblings are deleted before the outer element
    closes, so the outer record is built from what is left. *)
Example walk_nested :
  XmlParser.parse_tree
    (XmlParser.Elem "item_basic_data" None
       [ XmlParser.Elem "a" (Some "1") [];
         XmlParser.Elem "item_basic_data" (Some "t")
           [ XmlParser.Elem "b" (Some "2") [] ];
         XmlParser.Elem "c" (Some "3") [] ]) =
  [ {[ "b" := PStr "2" ]};
    {[ "item_basic_data" := PNone; "c" := PStr "3" ]} ].
Proof. vm_compute. reflexivity. Qed.

(** ** MongoStorage: upserts on a collection *)

Module MongoFacts.
Import MongoStorage.

Section Upserts.
Variable bson_eqb : pyval → pyval → bool.
Hypothesis bson_refl : ∀ a, bson_eqb a a = true.
Hypothesis bson_sym : ∀ a b, bson_eqb a b = bson_eqb b a.
Hypothesis bson_trans :
  ∀ a b c, bson_eqb a b = true → bson_eqb b c = true → bson_eqb a c = true.

Abbreviation matches := (matches bson_eqb).
Abbreviation replace_one := (replace_one bson_eqb).
Abbreviation upsert := (upsert bson_eqb).
Abbreviation wf_op := (wf_op bson_eqb).
Abbreviation present := (present bson_eqb).
Abbreviation overwritten := (overwritten bson_eqb).
Abbreviation distinct_selectors := (distinct_selectors bson_eqb).
Abbreviation distinct_ids := (distinct_ids bson_eqb).

Lemma bson_congr_r a b v :
  bson_eqb a b = true → bson_eqb v a = bson_eqb v b.
Proof using bson_sym bson_trans.
  intros Hab. destruct (bson_eqb v a) eqn:Ha, (bson_eqb v b) eqn:Hb; try done.
  - by rewrite (bson_trans _ _ _ Ha Hab) in Hb.
  - rewrite bson_sym in Hab. by rewrite (bson_trans _ _ _ Hb Hab) in Ha.
Qed.

Lemma bson_congr_l a b v :
  bson_eqb a b = true → bson_eqb a v = bson_eqb b v.
Proof using bson_sym bson_trans.
  intros Hab. rewrite (bson_sym a v), (bson_sym b v). by apply bson_congr_r.
Qed.

Lemma matches_congr x k k' :
  bson_eqb k k' = true → matches x k = matches x k'.
Proof using bson_sym bson_trans. apply bson_congr_r. Qed.

Lemma replace_one_present k d l :
  present k l = true ↔ is_Some (replace_one k d l).
Proof.
  induction l as [|x l IH]; cbn.
  - split; [done|by intros [? ?]].
  - destruct (matches x k); cbn; [by split; eauto|].
    rewrite IH. destruct (replace_one k d l); cbn; split;
      intros [? ?]; by eauto.
Qed.

Lemma replace_one_absent k d l :
  present k l = false ↔ replace_one k d l = None.
Proof.
  pose proof (replace_one_present k d l) as H.
  destruct (present k l), (replace_one k d l) as [l'|]; split; try done.
  - intros _. destruct H as [H _]. by destruct (H eq_refl).
  - intros _. destruct H as [_ H]. by discriminate H.
Qed.

Lemma replace_one_app_Some k d l l1 l2 :
  replace_one k d l = Some l1 → replace_one k d (l ++ l2) = Some (l1 ++ l2).
Proof.
  revert l1. induction l as [|x l IH]; intros l1; cbn; [done|].
  destruct (matches x k); [by intros [= <-]|].
  destruct (replace_one k d l) as [l'|]; cbn; [|done].
  intros [= <-]. by rewrite (IH l').
Qed.

Lemma replace_one_app_None k d l l2 :
  replace_one k d l = None →
  replace_one k d (l ++ l2) = app l <$> replace_one k d l2.
Proof.
  induction l as [|x l IH]; cbn.
  - intros _. by destruct (replace_one k d l2).
  - destruct (matches x k); [done|].
    destruct (replace_one k d l) as [l'|]; cbn; [done|]. intros _.
    rewrite IH by done. by destruct (replace_one k d l2).
Qed.

(** Replacing under the same selector class twice: the second
    replacement lands where the first one did. *)
Lemma replace_one_again k d k' d' l l1 :
  bson_eqb (field_or_null d "id") k = true → bson_eqb k k' = true →
  replace_one k d l = Some l1 →
  replace_one k' d' l1 = replace_one k' d' l.
Proof using bson_sym bson_trans.
  intros Hd Hkk'. revert l1. induction l as [|x l IH]; intros l1; cbn; [done|].
  rewrite <- (matches_congr x k k') by done.
  destruct (matches x k) eqn:Hx.
  - intros [= <-]. cbn. unfold MongoStorage.matches at 1. cbn.
    by rewrite (bson_trans _ _ _ Hd Hkk').
  - destruct (replace_one k d l) as [l'|]; cbn; [|done].
    intros [= <-]. cbn. rewrite <- (matches_congr x k k'), Hx by done.
    by rewrite (IH l').
Qed.

(** A replacement does not change which selectors find a document. *)
Lemma present_replace_one k d l l1 k' :
  bson_eqb (field_or_null d "id") k = true →
  replace_one k d l = Some l1 → present k' l1 = present k' l.
Proof using bson_sym bson_trans.
  intros Hd. revert l1. induction l as [|x l IH]; intros l1; cbn; [done|].
  destruct (matches x k) eqn:Hx.
  - intros [= <-]. cbn. f_equal. unfold MongoStorage.matches in *. cbn.
    apply bson_congr_l, (bson_trans _ k); [done|]. by rewrite bson_sym.
  - destruct (replace_one k d l) as [l'|]; cbn; [|done].
    intros [= <-]. cbn. f_equal. by apply IH.
Qed.

(** Replacements under selectors of different classes touch different
    documents, so they can be swapped. *)
Lemma replace_one_commute k d k' d' l l1 l2 :
  bson_eqb (field_or_null d "id") k = true →
  bson_eqb (field_or_null d' "id") k' = true →
  bson_eqb k k' = false →
  replace_one k d l = Some l1 → replace_one k' d' l = Some l2 →
  ∃ l12, replace_one k' d' l1 = Some l12 ∧ replace_one k d l2 = Some l12.
Proof using bson_sym bson_trans.
  intros Hd Hd' Hne. revert l1 l2.
  induction l as [|x l IH]; intros l1 l2; cbn; [done|].
  destruct (matches x k) eqn:Hx, (matches x k') eqn:Hx'.
  - unfold MongoStorage.matches in *.
    rewrite bson_sym in Hx. by rewrite (bson_trans _ _ _ Hx Hx') in Hne.
  - intros [= <-].
    destruct (replace_one k' d' l) as [l'|] eqn:E; cbn; [|done].
    intros [= <-]. cbn. unfold MongoStorage.matches at 1. cbn.
    assert (bson_eqb (field_or_null d "id") k' = false) as ->.
    { by rewrite (bson_congr_l _ _ _ Hd). }
    rewrite Hx, E. by eexists.
  - destruct (replace_one k d l) as [l'|] eqn:E; cbn; [|done].
    intros [= <-] [= <-]. cbn. rewrite Hx'.
    unfold MongoStorage.matches at 1. cbn.
    assert (bson_eqb (field_or_null d' "id") k = false) as ->.
    { rewrite (bson_congr_l _ _ _ Hd'). by rewrite bson_sym. }
    rewrite E. by eexists.
  - destruct (replace_one k d l) as [l1'|] eqn:E1; cbn; [|done].
    destruct (replace_one k' d' l) as [l2'|] eqn:E2; cbn; [|done].
    intros [= <-] [= <-]. cbn. rewrite Hx, Hx'.
    destruct (IH _ _ eq_refl eq_refl) as (l12 & -> & ->). cbn. by eexists.
Qed.

Lemma present_upsert_self c op :
  wf_op op → present (selector op) (docs (upsert c op)) = true.
Proof using bson_sym bson_trans.
  intros Hwf. unfold MongoStorage.upsert.
  destruct (replace_one (selector op) (replacement op) (docs c))
    as [l1|] eqn:E; cbn [docs].
  - rewrite (present_replace_one _ _ _ _ _ Hwf E).
    apply (replace_one_present _ (replacement op)). by rewrite E.
  - unfold present. rewrite existsb_app. cbn.
    unfold MongoStorage.matches at 2. cbn. rewrite Hwf.
    by rewrite orb_true_r.
Qed.

Lemma present_upsert c op k :
  wf_op op → present k (docs c) = true →
  present k (docs (upsert c op)) = true.
Proof using bson_sym bson_trans.
  intros Hwf Hk. unfold MongoStorage.upsert.
  destruct (replace_one (selector op) (replacement op) (docs c))
    as [l1|] eqn:E; cbn [docs].
  - by rewrite (present_replace_one _ _ _ _ _ Hwf E).
  - unfold present in *. by rewrite existsb_app, Hk.
Qed.

Lemma present_congr k k' l :
  bson_eqb k k' = true → present k l = present k' l.
Proof using bson_sym bson_trans.
  intros Hkk'. unfold present.
  induction l as [|x l IH]; [done|].
  cbn. by rewrite IH, (matches_congr x k k').
Qed.

(** An upsert is overwritten by a later upsert of the same class. *)
Lemma upsert_same_class c a b :
  wf_op a → bson_eqb (selector a) (selector b) = true →
  upsert (upsert c a) b = upsert c b.
Proof using bson_sym bson_trans.
  intros Hwf Hab. unfold MongoStorage.upsert at 2 3.
  destruct (replace_one (selector a) (replacement a) (docs c))
    as [l1|] eqn:Ea.
  - unfold MongoStorage.upsert. cbn.
    rewrite (replace_one_again _ _ _ _ _ _ Hwf Hab Ea).
    destruct (replace_one (selector b) (replacement b) (docs c))
      as [l2|] eqn:Eb; [done|].
    apply replace_one_absent in Eb.
    rewrite <- (present_congr _ _ _ Hab) in Eb.
    apply (replace_one_absent _ (replacement a)) in Eb. congruence.
  - assert (Eb : replace_one (selector b) (replacement b) (docs c) = None).
    { apply replace_one_absent. apply replace_one_absent in Ea.
      by rewrite <- (present_congr _ _ _ Hab). }
    rewrite Eb. unfold MongoStorage.upsert. cbn.
    rewrite (replace_one_app_None _ _ _ _ Eb). cbn.
    unfold MongoStorage.matches. cbn.
    by rewrite (bson_trans _ _ _ Hwf Hab).
Qed.

(** Upserts of different classes commute once the first one finds a
    document to replace. *)
Lemma upsert_commute c a b :
  wf_op a → wf_op b → bson_eqb (selector a) (selector b) = false →
  present (selector a) (docs c) = true →
  upsert (upsert c a) b = upsert (upsert c b) a.
Proof using bson_sym bson_trans.
  intros Ha Hb Hne Hpa.
  apply (replace_one_present _ (replacement a)) in Hpa as [l1 E1].
  unfold MongoStorage.upsert at 2 4. rewrite E1.
  destruct (replace_one (selector b) (replacement b) (docs c))
    as [l2|] eqn:E2.
  - destruct (replace_one_commute _ _ _ _ _ _ _ Ha Hb Hne E1 E2)
      as (l12 & H1 & H2).
    unfold MongoStorage.upsert. cbn. by rewrite H1, H2.
  - unfold MongoStorage.upsert. cbn.
    rewrite (replace_one_app_Some _ _ _ _ _ E1).
    assert (replace_one (selector b) (replacement b) l1 = None) as ->; [|done].
    apply replace_one_absent. apply replace_one_absent in E2.
    by rewrite (present_replace_one _ _ _ _ _ Ha E1).
Qed.

Lemma present_foldl ops c k :
  Forall wf_op ops → present k (docs c) = true →
  present k (docs (foldl upsert c ops)) = true.
Proof using bson_sym bson_trans.
  intros Hwf. revert c. induction Hwf as [|op ops Hop _ IH]; intros c Hk.
  - done.
  - cbn. apply IH. by apply present_upsert.
Qed.

(** An upsert followed by a batch that overwrites it leaves no trace. *)
Lemma upsert_absorbed ops c a :
  wf_op a → Forall wf_op ops → present (selector a) (docs c) = true →
  overwritten a ops = true →
  foldl upsert (upsert c a) ops = foldl upsert c ops.
Proof using bson_sym bson_trans.
  intros Ha Hwf. revert c.
  induction Hwf as [|x ops Hx _ IH]; intros c Hp Hov; [done|].
  cbn in *. destruct (bson_eqb (selector a) (selector x)) eqn:Hax.
  - by rewrite upsert_same_class.
  - cbn in Hov. rewrite upsert_commute by done.
    apply IH; [|done]. by apply present_upsert.
Qed.

(** An upsert that changes nothing still changes nothing after a batch
    of operations of other classes. *)
Lemma upsert_settled ops c a :
  wf_op a → Forall wf_op ops → present (selector a) (docs c) = true →
  upsert c a = c → overwritten a ops = false →
  upsert (foldl upsert c ops) a = foldl upsert c ops.
Proof using bson_sym bson_trans.
  intros Ha Hwf. revert c.
  induction Hwf as [|x ops Hx _ IH]; intros c Hp Hset Hov; [done|].
  cbn in *. apply orb_false_elim in Hov as [Hax Hov].
  apply IH; [by apply present_upsert| |done].
  rewrite <- upsert_commute by done. by rewrite Hset.
Qed.

(** Applying a batch a second time changes nothing. *)
Lemma foldl_upsert_idem ops :
  Forall wf_op ops →
  ∀ c, foldl upsert (foldl upsert c ops) ops = foldl upsert c ops.
Proof using bson_refl bson_sym bson_trans.
  induction 1 as [|a ops Ha Hwf IH]; intros c; [done|].
  cbn. set (c' := upsert c a).
  assert (Hp : present (selector a) (docs (foldl upsert c' ops)) = true).
  { apply present_foldl; [done|]. by apply present_upsert_self. }
  destruct (overwritten a ops) eqn:Hov.
  - rewrite upsert_absorbed by done. apply IH.
  - rewrite upsert_settled; [apply IH|done|done| | |done].
    + by apply present_upsert_self.
    + by apply upsert_same_class.
Qed.

(** The operations [store] assembles. *)
Lemma assemble_ok data :
  Forall (fun d : CanonicalRecord => is_Some (d !! "id")) data →
  ∃ ops, assemble data = Ok ops ∧ Forall wf_op ops ∧
         Forall (fun op => replacement op !! "id" = Some (selector op)) ops ∧
         map replacement ops = data.
Proof using bson_refl.
  induction 1 as [|d data [k Hk] _ (ops & Hops & Hwf & Hsel & Hrep)].
  - by exists [].
  - eexists. cbn. rewrite Hk, Hops. cbn. split; [done|].
    split; [|split].
    + constructor; [|done]. unfold wf_op, field_or_null. cbn.
      by rewrite Hk.
    + by constructor.
    + cbn. by rewrite Hrep.
Qed.

Lemma assemble_missing_id data :
  Exists (fun d : CanonicalRecord => d !! "id" = None) data →
  assemble data = Raise (KeyError "id").
Proof.
  induction data as [|d data IH]; intros Hex.
  - by apply Exists_nil in Hex.
  - cbn. destruct (d !! "id") as [k|] eqn:Hk; [|done].
    apply Exists_cons in Hex as [Hd|Hex]; [congruence|].
    by rewrite IH.
Qed.

Lemma distinct_selectors_cons a ops :
  distinct_selectors (a :: ops) →
  overwritten a ops = false ∧ distinct_selectors ops.
Proof.
  intros [[Ha Hnd]%NoDup_cons Hinj]. split.
  - destruct (overwritten a ops) eqn:Hov; [|done].
    apply existsb_exists in Hov as (b & Hb%list_elem_of_In & Hab).
    rewrite (Hinj a b) in Ha; [done|by left|by right|done].
  - split; [done|]. intros x y Hx Hy. apply Hinj; by right.
Qed.

(** After such a batch every one of its operations has taken effect. *)
Lemma all_settled ops :
  Forall wf_op ops → distinct_selectors ops →
  ∀ c, Forall (fun op => upsert (foldl upsert c ops) op = foldl upsert c ops)
              ops.
Proof using bson_sym bson_trans bson_refl.
  induction 1 as [|a ops Ha Hwf IH]; intros Hd c; [done|].
  apply distinct_selectors_cons in Hd as [Hov Hd]. cbn. constructor.
  - apply upsert_settled; [done|done| | |done].
    + by apply present_upsert_self.
    + by apply upsert_same_class.
  - by apply IH.
Qed.

Lemma foldl_settled c ops :
  Forall (fun op => upsert c op = c) ops → foldl upsert c ops = c.
Proof.
  induction 1 as [|a ops Ha _ IH]; [done|]. cbn. by rewrite Ha.
Qed.

(** Re-submitting operations of such a batch, in any order and any
    number, changes nothing. *)
Lemma foldl_upsert_resubmit ops1 ops2 c :
  Forall wf_op ops1 → distinct_selectors ops1 → ops2 ⊆ ops1 →
  foldl upsert (foldl upsert c ops1) ops2 = foldl upsert c ops1.
Proof using bson_sym bson_trans bson_refl.
  intros Hwf Hd Hsub. apply foldl_settled.
  pose proof (all_settled _ Hwf Hd c) as Hall.
  rewrite Forall_forall in Hall. apply Forall_forall.
  intros op Hop. by apply Hall, Hsub.
Qed.

Lemma assemble_distinct data ops :
  Forall (fun op => replacement op !! "id" = Some (selector op)) ops →
  map replacement ops = data →
  distinct_ids data → distinct_selectors ops.
Proof.
  intros Hsel <- [Hnd Hinj]. rewrite Forall_forall in Hsel. split.
  - by apply (NoDup_fmap_1 replacement).
  - intros a b Ha Hb Hab.
    pose proof (Hsel _ Ha) as Ea. pose proof (Hsel _ Hb) as Eb.
    assert (Hrep : replacement a = replacement b).
    { apply Hinj.
      - apply list_elem_of_fmap. by exists a.
      - apply list_elem_of_fmap. by exists b.
      - unfold field_or_null. by rewrite Ea, Eb. }
    destruct a as [ka da], b as [kb db]. cbn in *. subst db.
    rewrite Ea in Eb. by injection Eb as ->.
Qed.

End Upserts.
End MongoFacts.


(** C10: if some record of the sequence has no 'id' key, [store] raises
    KeyError('id') and the collection is the one it was given; and a raw
    record whose native id field is missing or falsy is mapped, in either
    registered format, to a record without the 'id' key. *)
Theorem store_missing_id_raises :
  (∀ (bson_eqb : pyval → pyval → bool)
     (schedule : list MongoStorage.UpsertOp → list MongoStorage.UpsertOp)
     (data : list CanonicalRecord) (c : MongoStorage.Collection),
     Exists (fun d : CanonicalRecord => d !! "id" = None) data →
     MongoStorage.store bson_eqb schedule data c = (Raise (KeyError "id"), c)) ∧
  (∀ (d : parser_data) (data_format native : string) (item : RawRecord),
     PARSERS_DATA !! data_format = Some d →
     ("id", Some native) ∈ model_mapping d →
     (∀ v, item !! native = Some v → truthy v = false) →
     Parser.coerce_item (model_mapping d) item !! "id" = None).
Proof.
  split.
  - intros bson_eqb schedule data c Hex. unfold MongoStorage.store.
    by rewrite MongoFacts.assemble_missing_id.
  - intros d data_format native item Hd Hin Hfalsy.
    destruct (ParserFacts.registered_mapping_ok _ _ Hd) as [Hnd _].
    rewrite (ParserFacts.coerce_item_lookup _ _ _ (Some native)) by done.
    unfold Parser.entry_value.
    destruct (name_truthy (Some native)); [|done].
    destruct (item !! native) as [v|]; [|done].
    by rewrite (Hfalsy v).
Qed.

(** With pairwise distinct ids the order does not matter at all: once the
    records are stored, storing them again changes nothing even if the
    server applies the second batch in another order than the first. *)
Lemma store_again_any_order
    (bson_eqb : pyval → pyval → bool)
    (schedule1 schedule2 : list MongoStorage.UpsertOp →
                           list MongoStorage.UpsertOp)
    (data : list CanonicalRecord) (c : MongoStorage.Collection) :
  (∀ a, bson_eqb a a = true) →
  (∀ a b, bson_eqb a b = bson_eqb b a) →
  (∀ a b c, bson_eqb a b = true → bson_eqb b c = true → bson_eqb a c = true) →
  (∀ ops, schedule1 ops ≡ₚ ops) → (∀ ops, schedule2 ops ≡ₚ ops) →
  Forall (fun d : CanonicalRecord => is_Some (d !! "id")) data →
  MongoStorage.distinct_ids bson_eqb data →
  let once := MongoStorage.store bson_eqb schedule1 data c in
  MongoStorage.store bson_eqb schedule2 data once.2 = once.
Proof.
  intros Hrefl Hsym Htrans Hp1 Hp2 Hids Hdist once. subst once.
  destruct (MongoFacts.assemble_ok bson_eqb Hrefl data Hids)
    as (ops & Hops & Hwf & Hsel & Hrep).
  pose proof (MongoFacts.assemble_distinct bson_eqb _ _ Hsel Hrep Hdist)
    as [Hnd Hinj].
  unfold MongoStorage.store. rewrite Hops.
  unfold MongoStorage.execute. destruct ops as [|op ops]; [done|].
  cbn [snd]. f_equal.
  apply (MongoFacts.foldl_upsert_resubmit bson_eqb Hrefl Hsym Htrans).
  - by rewrite Hp1.
  - split; [by rewrite Hp1|].
    intros a b Ha Hb. rewrite Hp1 in Ha, Hb. by apply Hinj.
  - intros x. by rewrite Hp2, Hp1.
Qed.

(** ** MongoStorage: the index *)

Module IndexFacts.
Import MongoStorage.

Lemma create_index_Ok bson_eqb c c' :
  create_index bson_eqb "id" true c = Ok c' →
  (indexes c !! "id_1" = Some id_index ∧ c' = c) ∨
  (indexes c !! "id_1" = None ∧
   distinct_on bson_eqb "id" (docs c) = true ∧
   c' = {| docs := docs c; next_oid := next_oid c;
           indexes := <["id_1" := id_index]> (indexes c) |}).
Proof.
  unfold create_index. change (gen_index_name "id") with "id_1".
  destruct (indexes c !! "id_1") as [old|] eqn:E.
  - destruct (decide (old = {| key := "id"; unique := true |})) as [->|];
      [|done].
    intros [= <-]. by left.
  - destruct (decide (map_Exists _ _)); [done|]. cbn [andb].
    destruct (distinct_on bson_eqb "id" (docs c)); [|done].
    cbn. intros [= <-]. by right.
Qed.

Lemma create_index_again bson_eqb c :
  indexes c !! "id_1" = Some id_index →
  create_index bson_eqb "id" true c = Ok c.
Proof.
  intros E. unfold create_index. change (gen_index_name "id") with "id_1".
  rewrite E. by rewrite decide_True.
Qed.

End IndexFacts.


(** ** The theorems at concrete inputs *)

Lemma py_eqb_refl a : MongoStorage.py_eqb a a = true.
Proof. by apply bool_decide_eq_true. Qed.

Lemma py_eqb_sym a b : MongoStorage.py_eqb a b = MongoStorage.py_eqb b a.
Proof. unfold MongoStorage.py_eqb. apply bool_decide_ext. by split. Qed.

Lemma py_eqb_trans a b c :
  MongoStorage.py_eqb a b = true → MongoStorage.py_eqb b c = true →
  MongoStorage.py_eqb a c = true.
Proof.
  unfold MongoStorage.py_eqb. rewrite !bool_decide_eq_true. congruence.
Qed.

Lemma coerce_model_field_iff_witness :
  (is_Some (Samples.book_record !! "title") ↔
     ∃ name v, Some "item_title" = Some name ∧
               Samples.book_item !! name = Some v ∧ truthy v = true) ∧
  (∀ v, Samples.book_record !! "title" = Some v →
     ∃ name, Some "item_title" = Some name ∧
             Samples.book_item !! name = Some v).
Proof.
  apply (coerce_model_field_iff Samples.xml_parser Samples.xml_data
           [Samples.book_item] [Samples.book_record] 0
           Samples.book_item Samples.book_record "title" (Some "item_title")).
  - reflexivity.
  - apply list_elem_of_In. cbn. tauto.
  - vm_compute. reflexivity.
  - reflexivity.
  - reflexivity.
Defined.


(** What the two runs leave behind: one document per id, the later of the
    two records with id 1. *)
Example store_three_records :
  (MongoStorage.store MongoStorage.py_eqb MongoStorage.in_order
     Samples.three_records Samples.empty_collection).2 =
  {| MongoStorage.docs :=
       [ {| MongoStorage._id := 0%N;
            MongoStorage.body := {[ "id" := PStr "1"; "title" := PStr "B" ]} |};
         {| MongoStorage._id := 1%N;
            MongoStorage.body := {[ "id" := PStr "2" ]} |} ];
     MongoStorage.next_oid := 2%N;
     MongoStorage.indexes := MongoStorage.indexes Samples.empty_collection |}.
Proof. vm_compute. reflexivity. Qed.

Lemma Parser_init_unknown_format_witness :
  Parser.init "json" = Raise (ValueError "No parser for json format") ∧
  Parser.run "json" Samples.one_book_world "products.xml" =
    Raise (ValueError "No parser for json format").
Proof.
  destruct (proj1 Parser_init_unknown_format "json") as [Hinit Hrun].
  - discriminate.
  - discriminate.
  - split; [exact Hinit|]. exact (Hrun Samples.one_book_world "products.xml").
Defined.

Lemma coerce_model_one_to_one_witness :
  ∃ outs : list CanonicalRecord,
    Parser.coerce_model Samples.xml_parser
      [Samples.book_item; Samples.untitled_item] = Ok outs ∧
    length outs = 2.
Proof.
  destruct (coerce_model_one_to_one Samples.xml_parser Samples.xml_data
              [Samples.book_item; Samples.untitled_item])
    as (outs & Hco & Hlen & _).
  - reflexivity.
  - exists outs. split; [exact Hco|exact Hlen].
Defined.

Lemma HEADERS_CSV_schema_witness :
  CsvParser.row_to_dict CsvParser.HEADERS_CSV Samples.short_line
    !! "product_name" = Some (PStr "Widget").
Proof.
  apply (proj2 (proj2 HEADERS_CSV_schema) Samples.short_line 1 "product_name").
  reflexivity.
Defined.



Lemma XmlParser_record_fields_witness :
  XmlParser.parse_tree (XmlParser.Elem "products" None [untitled_element]) =
    map XmlParser.record_of [untitled_element] ∧
  XmlParser.record_of untitled_element !! "item_title" = Some PNone ∧
  XmlParser.record_of untitled_element !! "item_sku" = None ∧
  Parser.coerce_item MODEL_TO_XML_DICT Samples.untitled_item !! "title" = None.
Proof.
  destruct XmlParser_record_fields as (Hflat & Hlast & Habsent & Hdrop).
  split; [|split; [|split]].
  - apply (Hflat (XmlParser.Elem "products" None [untitled_element])).
    reflexivity.
  - apply (Hlast untitled_element [] (XmlParser.Elem "item_title" None []) []).
    + reflexivity.
    + constructor.
    + reflexivity.
  - apply (Habsent untitled_element "item_sku").
    repeat constructor. discriminate.
  - apply (Hdrop Samples.untitled_item "title" "item_title").
    + apply list_elem_of_In. cbn. tauto.
    + reflexivity.
Defined.

Lemma CsvParser_parse_rows_witness :
  length (CsvParser.parse_chunks [Samples.one_row_frame]) = 1 ∧
  ∃ rec, CsvParser.parse_chunks [Samples.one_row_frame] !! 0 = Some rec ∧
         rec !! "brand" = Some (PStr "").
Proof.
  destruct (CsvParser_parse_rows [Samples.one_row_frame])
    as (Hlen & _ & _ & Hpad).
  - repeat constructor.
  - split; [exact Hlen|].
    apply (Hpad 0 Samples.short_line 16 "brand").
    + reflexivity.
    + reflexivity.
    + cbn. lia.
Defined.

Lemma store_missing_id_raises_witness :
  MongoStorage.store MongoStorage.py_eqb MongoStorage.in_order
    Samples.no_id_records Samples.empty_collection =
    (Raise (KeyError "id"), Samples.empty_collection) ∧
  Parser.coerce_item (model_mapping Samples.xml_data) Samples.untitled_item
    !! "id" = None.
Proof.
  split.
  - apply (proj1 store_missing_id_raises).
    apply Exists_cons_tl, Exists_cons_hd. reflexivity.
  - apply (proj2 store_missing_id_raises Samples.xml_data "xml"
             "item_unique_id").
    + reflexivity.
    + apply list_elem_of_In. cbn. tauto.
    + intros v Hv. vm_compute in Hv. discriminate.
Defined.

(** * Further properties *)

(** ** The mapper: keys, values and the fields it reads *)

Module MapperFacts.
Import Parser.

Lemma foldl_put_Some {V} (kvs : list (string * V)) (acc : gmap string V) k v :
  foldl put acc kvs !! k = Some v → (k, v) ∈ kvs ∨ acc !! k = Some v.
Proof.
  revert acc. induction kvs as [|[k' v'] kvs IH]; intros acc; cbn; [by right|].
  intros [Hin|Hacc]%IH.
  - left. by right.
  - unfold put in Hacc. cbn in Hacc.
    apply lookup_insert_Some in Hacc as [[-> ->]|[_ Hacc]].
    + left. by left.
    + by right.
Qed.

(** Every entry of the record produced comes from a mapping entry with a
    defined, non-empty native name under which the raw record holds that
    very value, and the value is truthy. *)
Lemma coerce_item_Some mapping item k v :
  coerce_item mapping item !! k = Some v →
  ∃ name, (k, Some name) ∈ mapping ∧ name ≠ "" ∧
          item !! name = Some v ∧ truthy v = true.
Proof.
  rewrite ParserFacts.coerce_item_fold.
  intros [Hin|Hemp]%foldl_put_Some; [|by rewrite lookup_empty in Hemp].
  apply list_elem_of_omap in Hin as ([k' native] & Hin & Hv). cbn in Hv.
  unfold entry_value in Hv. destruct native as [name|]; [|done].
  destruct (name_truthy (Some name)) eqn:Hname; [|done].
  destruct (item !! name) as [v'|] eqn:Hitem; [|done].
  destruct (truthy v') eqn:Htruthy; [|done]. cbn in Hv.
  injection Hv as -> ->. exists name. repeat split; try done.
  intros ->. by cbn in Hname.
Qed.

Lemma kept_entries_agree mapping item1 item2 :
  (∀ k name, (k, Some name) ∈ mapping → item1 !! name = item2 !! name) →
  kept_entries mapping item1 = kept_entries mapping item2.
Proof.
  induction mapping as [|[k native] mapping IH]; intros Hagree; [done|].
  unfold kept_entries in *. cbn.
  rewrite IH by (intros k' name Hin; apply (Hagree k'); by right).
  destruct native as [name|]; [|done]. cbn.
  by rewrite (Hagree k name) by (by left).
Qed.

Lemma registered_keys data_format d :
  PARSERS_DATA !! data_format = Some d →
  (model_mapping d).*1 = canonical_fields.
Proof.
  by intros [(_ & -> & _)|(_ & -> & _)]%ParserFacts.PARSERS_DATA_lookup.
Qed.

End MapperFacts.

(** X1: every key of a record [coerce_model] produces, for either
    registered format, is one of the sixteen canonical field names; in
    particular a record never has the key _id. *)
Theorem coerce_model_keys_canonical
    (self : Parser.t) (d : parser_data)
    (raws : list RawRecord) (outs : list CanonicalRecord)
    (out : CanonicalRecord) :
  PARSERS_DATA !! Parser.format self = Some d →
  Parser.coerce_model self raws = Ok outs →
  out ∈ outs →
  length Parser.canonical_fields = 16 ∧
  (∀ k, is_Some (out !! k) → k ∈ Parser.canonical_fields) ∧
  out !! "_id" = None.
Proof.
  intros Hd Hco Hout. unfold Parser.coerce_model in Hco. rewrite Hd in Hco.
  injection Hco as <-.
  apply list_elem_of_In, in_map_iff in Hout as (item & <- & _).
  assert (Hkeys : ∀ k, is_Some (Parser.coerce_item (model_mapping d) item !! k)
                       → k ∈ Parser.canonical_fields).
  { intros k [v Hv]. rewrite <- (MapperFacts.registered_keys _ _ Hd).
    apply MapperFacts.coerce_item_Some in Hv as (name & Hin & _).
    apply list_elem_of_fmap. by exists (k, Some name). }
  split; [reflexivity|]. split; [exact Hkeys|].
  destruct (Parser.coerce_item (model_mapping d) item !! "_id") eqn:E; [|done].
  assert (Hin : "_id" ∈ Parser.canonical_fields) by (apply Hkeys; eauto).
  apply list_elem_of_In in Hin. vm_compute in Hin.
  repeat (destruct Hin as [Hin|Hin]; [discriminate Hin|]). destruct Hin.
Qed.

(** X2: every value of a record [coerce_model] produces is truthy: no
    None, no empty string, no zero is ever stored under a canonical
    name. *)
Theorem coerce_model_values_truthy
    (self : Parser.t) (d : parser_data)
    (raws : list RawRecord) (outs : list CanonicalRecord)
    (out : CanonicalRecord) (k : string) (v : pyval) :
  PARSERS_DATA !! Parser.format self = Some d →
  Parser.coerce_model self raws = Ok outs →
  out ∈ outs →
  out !! k = Some v →
  truthy v = true ∧ v ≠ PNone ∧ v ≠ PStr "" ∧ v ≠ PInt 0.
Proof.
  intros Hd Hco Hout Hk. unfold Parser.coerce_model in Hco.
  rewrite Hd in Hco. injection Hco as <-.
  apply list_elem_of_In, in_map_iff in Hout as (item & <- & _).
  apply MapperFacts.coerce_item_Some in Hk as (_ & _ & _ & _ & Ht).
  split; [done|]. repeat split; intros ->; discriminate Ht.
Qed.

(** X3: [coerce_model] reads a raw record only under the native names of
    the mapping: two raw records that agree there are mapped to the same
    record, whatever other fields they carry. *)
Theorem coerce_model_reads_mapped_fields
    (self : Parser.t) (d : parser_data) (item1 item2 : RawRecord) :
  PARSERS_DATA !! Parser.format self = Some d →
  (∀ k name, (k, Some name) ∈ model_mapping d →
             item1 !! name = item2 !! name) →
  Parser.coerce_model self [item1] = Parser.coerce_model self [item2].
Proof.
  intros Hd Hagree. unfold Parser.coerce_model. rewrite Hd. cbn.
  do 2 f_equal. rewrite !ParserFacts.coerce_item_fold.
  by rewrite (MapperFacts.kept_entries_agree _ _ _ Hagree).
Qed.

(** ** The delimited-text pipeline *)

Module CsvMore.
Import CsvParser.

Lemma row_to_dict_keys names cells k :
  is_Some (row_to_dict names cells !! k) → k ∈ names.
Proof.
  intros [v Hv]. unfold row_to_dict in Hv.
  change (foldl put ∅ (zip names cells) !! k = Some v) in Hv.
  apply MapperFacts.foldl_put_Some in Hv as [Hin|Hemp];
    [|by rewrite lookup_empty in Hemp].
  by apply elem_of_zip_l in Hin.
Qed.

(** Every native name of the CSV mapping is a column of the schema. *)
Lemma csv_native_is_column k name :
  (k, Some name) ∈ MODEL_TO_CSV_DICT → name ∈ HEADERS_CSV.
Proof.
  intros Hin%list_elem_of_In. apply list_elem_of_In. cbn in Hin.
  repeat (destruct Hin as [[= <- <-]|Hin]; [cbn; tauto|]). destruct Hin.
Qed.

(** The record of the i-th row holds, under the j-th column name, the
    j-th cell of the row after [fillna('')]. *)
Lemma parse_chunks_cell chunks i cells j name :
  Forall frame_ok chunks →
  all_rows chunks !! i = Some cells →
  HEADERS_CSV !! j = Some name →
  ∃ rec c, parse_chunks chunks !! i = Some rec ∧ cells !! j = Some c ∧
           rec !! name = Some (fill_value (PStr "") c).
Proof.
  intros Hok Hi Hj. rewrite CsvFacts.parse_chunks_rows by done.
  pose proof (CsvFacts.all_rows_width _ _ Hok
                (list_elem_of_lookup_2 _ _ _ Hi)) as Hlen.
  destruct (lookup_lt_is_Some_2 cells j) as [c Hc].
  { rewrite Hlen. by eapply lookup_lt_Some. }
  eexists _, c. split; [|split; [done|]].
  - change (map ?f ?l) with (f <$> l). by rewrite list_lookup_fmap, Hi.
  - cbn beta. rewrite (CsvFacts.row_to_dict_lookup _ _ j)
      by (done || apply CsvFacts.HEADERS_CSV_NoDup).
    change (map ?f cells) with (f <$> cells).
    by rewrite list_lookup_fmap, Hc.
Qed.

End CsvMore.

(** X4: the keys of a record [CsvParser.parse] yields from a frame are
    exactly the 38 column names: every column is a key and nothing else
    is. *)
Theorem CsvParser_record_keys
    (chunks : list CsvParser.DataFrame) (rec : RawRecord) (k : string) :
  Forall CsvParser.frame_ok chunks →
  rec ∈ CsvParser.parse_chunks chunks →
  (is_Some (rec !! k) ↔ k ∈ CsvParser.HEADERS_CSV).
Proof.
  intros Hok Hrec. split.
  - rewrite CsvFacts.parse_chunks_rows in Hrec by done.
    apply list_elem_of_In, in_map_iff in Hrec as (cells & <- & _).
    apply CsvMore.row_to_dict_keys.
  - intros Hk. apply list_elem_of_lookup in Hk as [j Hj].
    apply list_elem_of_lookup in Hrec as [i Hi].
    assert (Hrow : is_Some (CsvParser.all_rows chunks !! i)).
    { apply lookup_lt_is_Some.
      apply lookup_lt_Some in Hi.
      by rewrite CsvFacts.parse_chunks_rows, length_map in Hi. }
    destruct Hrow as [cells Hcells].
    destruct (CsvMore.parse_chunks_cell _ _ _ _ _ Hok Hcells Hj)
      as (rec' & c & Hrec' & _ & Hval).
    rewrite Hi in Hrec'. injection Hrec' as <-. by eexists.
Qed.

(** X5: the records do not depend on how pandas cut the file into chunks:
    two readings with the same rows, chunked differently, yield the same
    sequence of records. *)
Theorem CsvParser_chunking_irrelevant
    (chunks1 chunks2 : list CsvParser.DataFrame) :
  Forall CsvParser.frame_ok chunks1 →
  Forall CsvParser.frame_ok chunks2 →
  CsvParser.all_rows chunks1 = CsvParser.all_rows chunks2 →
  CsvParser.parse_chunks chunks1 = CsvParser.parse_chunks chunks2.
Proof.
  intros H1 H2 Hrows. rewrite !CsvFacts.parse_chunks_rows by done.
  by rewrite Hrows.
Qed.

(** X6: the delimited-text pipeline end to end.  When pandas reads frames
    from the path, [Parser('csv').parse(path)] yields one canonical record
    per row, in row order, and in the record of a row a canonical field is
    present exactly when the cell of its column is neither missing
    (None/NaN) nor falsy (empty string, zero, False); it then holds the
    cell itself. *)
Theorem csv_pipeline_rows
    (w : World) (path : string) (chunks : list CsvParser.DataFrame) :
  read_csv w path = Some chunks →
  Forall CsvParser.frame_ok chunks →
  ∃ outs : list CanonicalRecord,
    Parser.run CSV w path = Ok outs ∧
    length outs = length (CsvParser.all_rows chunks) ∧
    ∀ i cells model_name name,
      CsvParser.all_rows chunks !! i = Some cells →
      (model_name, Some name) ∈ MODEL_TO_CSV_DICT →
      ∃ out j c,
        outs !! i = Some out ∧
        CsvParser.HEADERS_CSV !! j = Some name ∧
        cells !! j = Some c ∧
        out !! model_name =
          (if negb (CsvParser.isna c) && truthy c then Some c else None).
Proof.
  intros Hread Hok. rewrite ParserFacts.run_csv, Hread. eexists.
  split; [done|].
  split.
  { by rewrite length_map, CsvFacts.parse_chunks_rows, length_map. }
  intros i cells model_name name Hi Hin.
  pose proof (CsvMore.csv_native_is_column _ _ Hin) as Hcol.
  apply list_elem_of_lookup in Hcol as [j Hj].
  destruct (CsvMore.parse_chunks_cell _ _ _ _ _ Hok Hi Hj)
    as (rec & c & Hrec & Hc & Hval).
  unfold CsvParser.fill_value in Hval.
  exists (Parser.coerce_item MODEL_TO_CSV_DICT rec), j, c.
  split; [|split; [done|split; [done|]]].
  - change (map ?f ?l) with (f <$> l). by rewrite list_lookup_fmap, Hrec.
  - destruct (ParserFacts.registered_mapping_ok CSV _
                ParserFacts.PARSERS_DATA_csv) as [Hnd Hnames].
    cbn [model_mapping] in Hnd, Hnames.
    rewrite (ParserFacts.coerce_item_lookup _ _ _ (Some name)) by done.
    unfold Parser.entry_value. rewrite Hval.
    assert (Hname : name_truthy (Some name) = true).
    { rewrite Forall_forall in Hnames.
      by destruct (Hnames _ Hin) as [|]. }
    rewrite Hname. by destruct (CsvParser.isna c).
Qed.

(** ** The XML walk: how many records, what is left in memory, nesting *)

Module XmlMore.
Import XmlParser.

Lemma walk_children_app cs1 cs2 recs kept :
  walk_children (cs1 ++ cs2) recs kept =
    walk_children cs2 (walk_children cs1 recs kept).1
                      (walk_children cs1 recs kept).2.
Proof.
  revert recs kept. induction cs1 as [|c cs1 IH]; intros recs kept; [done|].
  cbn [app]. rewrite !XmlFacts.walk_children_cons.
  destruct (walk c) as [rc c']. apply IH.
Qed.

Lemma walk_children_no_record cs recs kept :
  existsb has_record cs = false →
  walk_children cs recs kept = (recs, kept ++ cs).
Proof.
  revert recs kept. induction cs as [|c cs IH]; intros recs kept Hcs.
  - by rewrite app_nil_r.
  - cbn [existsb] in Hcs. apply orb_false_elim in Hcs as [Hc Hcs].
    rewrite XmlFacts.walk_children_cons, (XmlFacts.walk_no_record _ Hc).
    rewrite (XmlFacts.has_record_tag _ Hc), IH by done.
    by rewrite app_nil_r, <- app_assoc.
Qed.

Lemma walk_record_element e :
  String.eqb (tag e) RECORD_TAG = true → (walk e).2 = clear e.
Proof.
  destruct e as [t x cs]. cbn [tag]. intros Ht.
  rewrite XmlFacts.walk_unfold.
  destruct (walk_children cs [] []) as [recs kept]. by rewrite Ht.
Qed.

(** One record per record element, nested or not. *)
Lemma walk_length e : length (walk e).1 = length (containers e).
Proof.
  induction e as [t x cs IH] using Element_nested_ind.
  rewrite XmlFacts.walk_unfold. cbn [containers].
  assert (Hch : ∀ recs kept,
            length (walk_children cs recs kept).1 =
              length recs + length (flat_map containers cs)).
  { induction cs as [|c cs IHcs]; intros recs kept; [cbn; lia|].
    apply Forall_cons in IH as [IHc IH].
    rewrite XmlFacts.walk_children_cons.
    destruct (walk c) as [rc c'] eqn:Hw. cbn [fst] in IHc.
    rewrite IHcs by done. cbn [flat_map].
    rewrite !length_app, IHc. lia. }
  specialize (Hch [] []). destruct (walk_children cs [] []) as [recs kept].
  cbn [fst] in Hch. rewrite length_app.
  destruct (String.eqb t RECORD_TAG); cbn; rewrite ?length_app, Hch; cbn; lia.
Qed.

(** Every record element left in the tree has been cleared. *)
Lemma walk_cleared e : records_cleared (walk e).2 = true.
Proof.
  induction e as [t x cs IH] using Element_nested_ind.
  rewrite XmlFacts.walk_unfold.
  assert (Hch : ∀ recs kept,
            forallb records_cleared kept = true →
            forallb records_cleared (walk_children cs recs kept).2 = true).
  { induction cs as [|c cs IHcs]; intros recs kept Hkept; [done|].
    apply Forall_cons in IH as [IHc IH].
    rewrite XmlFacts.walk_children_cons.
    destruct (walk c) as [rc c'] eqn:Hw. cbn [snd] in IHc.
    apply IHcs; [done|].
    destruct (String.eqb (tag c) RECORD_TAG).
    - cbn. by rewrite IHc.
    - rewrite forallb_app, Hkept. cbn. by rewrite IHc. }
  specialize (Hch [] [] eq_refl).
  destruct (walk_children cs [] []) as [recs kept]. cbn [snd] in Hch.
  destruct (String.eqb t RECORD_TAG) eqn:Ht; cbn.
  - by rewrite Ht.
  - by rewrite Ht, Hch.
Qed.

(** Under a parent all of whose children are record elements, at most one
    child is left. *)
Lemma walk_children_all_records cs recs kept :
  forallb (fun c => String.eqb (tag c) RECORD_TAG) cs = true →
  (length (walk_children cs recs kept).2 ≤ max (length kept) 1)%nat.
Proof.
  revert recs kept. induction cs as [|c cs IH]; intros recs kept Hcs.
  - cbn. lia.
  - cbn [forallb] in Hcs. apply andb_prop in Hcs as [Hc Hcs].
    rewrite XmlFacts.walk_children_cons.
    destruct (walk c) as [rc c']. rewrite Hc.
    specialize (IH (recs ++ rc) [c'] Hcs). cbn in IH. lia.
Qed.

End XmlMore.

(** X7: [XmlParser.parse] yields exactly one record per item_basic_data
    element of the document, whether or not such elements are nested in
    one another. *)
Theorem XmlParser_one_record_per_element (root : XmlParser.Element) :
  length (XmlParser.parse_tree root) = length (XmlParser.containers root).
Proof. apply XmlMore.walk_length. Qed.

(** X8: the clean-up after each yield.  When the document has been read,
    every item_basic_data element still in the tree is empty (no text, no
    children); and under an element all of whose children are
    item_basic_data elements at most one child is left, however many
    there were. *)
Theorem XmlParser_cleanup_bounds_tree :
  (∀ root : XmlParser.Element,
     XmlParser.records_cleared (XmlParser.walk root).2 = true) ∧
  (∀ (t : string) (x : option string) (cs : list XmlParser.Element),
     forallb (fun c => String.eqb (XmlParser.tag c) XmlParser.RECORD_TAG) cs
       = true →
     (length (XmlParser.children (XmlParser.walk (XmlParser.Elem t x cs)).2)
        ≤ 1)%nat).
Proof.
  split; [apply XmlMore.walk_cleared|].
  intros t x cs Hcs. rewrite XmlFacts.walk_unfold.
  pose proof (XmlMore.walk_children_all_records cs [] [] Hcs) as Hlen.
  destruct (XmlParser.walk_children cs [] []) as [recs kept].
  cbn [snd length] in Hlen.
  destruct (String.eqb t XmlParser.RECORD_TAG); cbn; lia.
Qed.

(** X9: nesting loses fields.  When an item_basic_data element has an
    item_basic_data child [r], followed only by children without such
    elements, its own record is built from the emptied [r] and the
    children after it: it has the key item_basic_data with value None, and
    no field of a child before [r] survives unless a later child repeats
    its tag. *)
Theorem XmlParser_nested_record_loses_fields
    (x : option string) (cs1 cs2 : list XmlParser.Element)
    (r : XmlParser.Element) :
  XmlParser.tag r = XmlParser.RECORD_TAG →
  existsb XmlParser.has_record cs2 = false →
  ∃ rec : RawRecord,
    last (XmlParser.parse_tree
            (XmlParser.Elem XmlParser.RECORD_TAG x (cs1 ++ r :: cs2)))
      = Some rec ∧
    rec = XmlParser.record_of
            (XmlParser.Elem XmlParser.RECORD_TAG x (XmlParser.clear r :: cs2)) ∧
    (∀ k, Forall (fun c => XmlParser.tag c ≠ k) cs2 →
          rec !! k =
            if String.eqb k XmlParser.RECORD_TAG then Some PNone else None).
Proof.
  intros Hr Hcs2. eexists. split; [|split; [reflexivity|]].
  - unfold XmlParser.parse_tree. rewrite XmlFacts.walk_unfold.
    rewrite XmlMore.walk_children_app.
    destruct (XmlParser.walk_children cs1 [] []) as [recs1 kept1].
    cbn [fst snd]. rewrite XmlFacts.walk_children_cons.
    pose proof (XmlMore.walk_record_element r) as Hclear.
    rewrite Hr in Hclear. specialize (Hclear eq_refl).
    destruct (XmlParser.walk r) as [rc r']. cbn [snd] in Hclear. subst r'.
    rewrite Hr. cbn [String.eqb]. rewrite String.eqb_refl.
    rewrite XmlMore.walk_children_no_record by done.
    cbn. by rewrite last_snoc.
  - intros k Hk.
    destruct (String.eqb_spec k XmlParser.RECORD_TAG) as [->|Hne].
    + pose proof (XmlFacts.record_of_last
                    (XmlParser.Elem XmlParser.RECORD_TAG x
                       (XmlParser.clear r :: cs2))
                    [] (XmlParser.clear r) cs2 eq_refl) as Hlast.
      cbn [XmlParser.clear XmlParser.tag XmlParser.text
           XmlParser.text_value] in Hlast.
      rewrite Hr in Hlast. by apply Hlast.
    + apply XmlFacts.record_of_absent. cbn [XmlParser.children].
      constructor; [|done]. cbn. by rewrite Hr.
Qed.

(** ** The sink: what a store leaves in the collection *)

Module MongoMore.
Import MongoStorage.

Lemma forallb_pointwise {A} (f g : A → bool) (l : list A) :
  (∀ a, f a = g a) → forallb f l = forallb g l.
Proof.
  intros Hfg. induction l as [|a l IH]; [done|]. cbn. by rewrite Hfg, IH.
Qed.

Section Laws.
Variable bson_eqb : pyval → pyval → bool.
Hypothesis bson_refl : ∀ a, bson_eqb a a = true.
Hypothesis bson_sym : ∀ a b, bson_eqb a b = bson_eqb b a.
Hypothesis bson_trans :
  ∀ a b c, bson_eqb a b = true → bson_eqb b c = true → bson_eqb a c = true.

Abbreviation matches := (matches bson_eqb).
Abbreviation replace_one := (replace_one bson_eqb).
Abbreviation upsert := (upsert bson_eqb).
Abbreviation wf_op := (wf_op bson_eqb).
Abbreviation present := (present bson_eqb).
Abbreviation overwritten := (overwritten bson_eqb).
Abbreviation find_one := (find_one bson_eqb).
Abbreviation distinct_on := (distinct_on bson_eqb).
Abbreviation distinct_selectors := (distinct_selectors bson_eqb).

(** What [assemble] returns when it returns. *)
Lemma assemble_inv data ops :
  assemble data = Ok ops →
  Forall wf_op ops ∧
  Forall (fun op => replacement op !! "id" = Some (selector op)) ops ∧
  map replacement ops = data.
Proof using bson_refl.
  revert ops. induction data as [|d data IH]; intros ops; cbn.
  - by intros [= <-].
  - destruct (d !! "id") as [k|] eqn:Hk; [|done].
    destruct (assemble data) as [ops'|] eqn:Hops; [|done]. cbn.
    intros [= <-]. destruct (IH _ eq_refl) as (Hwf & Hsel & Hrep).
    split; [|split].
    + constructor; [|done]. unfold MongoStorage.wf_op, field_or_null. cbn.
      by rewrite Hk.
    + by constructor.
    + cbn. by rewrite Hrep.
Qed.

Lemma assemble_nil_inv data : assemble data = Ok [] → data = [].
Proof.
  destruct data as [|d data]; [done|]. cbn.
  destruct (d !! "id"); [|done]. by destruct (assemble data).
Qed.

(** *** Existing documents keep their place and their [_id] *)

Lemma replace_one_lookup k d l l1 i x :
  replace_one k d l = Some l1 → l !! i = Some x →
  ∃ x', l1 !! i = Some x' ∧ _id x' = _id x ∧
        (matches x k = false → x' = x).
Proof.
  revert l1 i. induction l as [|y l IH]; intros l1 i; cbn; [done|].
  destruct (matches y k) eqn:Hy.
  - intros [= <-]. destruct i as [|i]; cbn.
    + intros [= <-]. eexists. split; [done|]. split; [done|]. congruence.
    + intros Hx. exists x. by rewrite Hx.
  - destruct (replace_one k d l) as [l'|] eqn:E; [|done]. cbn.
    intros [= <-]. destruct i as [|i]; cbn.
    + intros [= <-]. by exists y.
    + intros Hx. by apply (IH l').
Qed.

Lemma upsert_lookup c op i x :
  docs c !! i = Some x →
  ∃ x', docs (upsert c op) !! i = Some x' ∧ _id x' = _id x ∧
        (matches x (selector op) = false → x' = x).
Proof.
  intros Hx. unfold MongoStorage.upsert.
  destruct (replace_one (selector op) (replacement op) (docs c))
    as [l1|] eqn:E; cbn [docs].
  - by eapply replace_one_lookup.
  - exists x. split; [|done]. by apply lookup_app_l_Some.
Qed.

Lemma foldl_upsert_lookup ops c i x :
  docs c !! i = Some x →
  ∃ x', docs (foldl upsert c ops) !! i = Some x' ∧ _id x' = _id x ∧
        (Forall (fun op => matches x (selector op) = false) ops → x' = x).
Proof.
  revert c x. induction ops as [|op ops IH]; intros c x Hx; cbn.
  - by exists x.
  - destruct (upsert_lookup c op i x Hx) as (x1 & Hx1 & Hid1 & Hsame1).
    destruct (IH _ _ Hx1) as (x' & Hx' & Hid' & Hsame').
    exists x'. split; [done|]. split; [congruence|].
    intros [Hop Hops]%Forall_cons. rewrite <- (Hsame1 Hop) in Hops.
    rewrite <- (Hsame1 Hop). by apply Hsame'.
Qed.

Lemma foldl_upsert_indexes ops c :
  indexes (foldl upsert c ops) = indexes c.
Proof.
  revert c. induction ops as [|op ops IH]; intros c; [done|].
  cbn. rewrite IH. unfold MongoStorage.upsert.
  by destruct (replace_one _ _ _).
Qed.

(** *** No two documents with the same id *)

Lemma forallb_replace_one k d l l1 z :
  bson_eqb (field_or_null d "id") k = true →
  replace_one k d l = Some l1 →
  forallb (fun y => negb (bson_eqb (field_or_null (body y) "id") z)) l1 =
  forallb (fun y => negb (bson_eqb (field_or_null (body y) "id") z)) l.
Proof using bson_sym bson_trans.
  intros Hd. revert l1. induction l as [|y l IH]; intros l1; cbn; [done|].
  destruct (matches y k) eqn:Hy.
  - intros [= <-]. cbn. f_equal. f_equal.
    apply (MongoFacts.bson_congr_l bson_eqb bson_sym bson_trans).
    apply (bson_trans _ k); [done|]. by rewrite bson_sym.
  - destruct (replace_one k d l) as [l'|] eqn:E; [|done]. cbn.
    intros [= <-]. cbn. f_equal. by apply IH.
Qed.

Lemma distinct_on_replace_one k d l l1 :
  bson_eqb (field_or_null d "id") k = true →
  replace_one k d l = Some l1 →
  distinct_on "id" l = true → distinct_on "id" l1 = true.
Proof using bson_sym bson_trans.
  intros Hd. revert l1. induction l as [|y l IH]; intros l1; cbn; [done|].
  destruct (matches y k) eqn:Hy.
  - intros [= <-] [Hy' Hl]%andb_prop. cbn.
    apply andb_true_intro. split; [|done].
    erewrite forallb_pointwise; [exact Hy'|].
    intros z. cbn. f_equal.
    apply (MongoFacts.bson_congr_r bson_eqb bson_sym bson_trans).
    apply (bson_trans _ k); [done|]. by rewrite bson_sym.
  - destruct (replace_one k d l) as [l'|] eqn:E; [|done]. cbn.
    intros [= <-] [Hy' Hl]%andb_prop. cbn.
    rewrite (forallb_replace_one _ _ _ _ _ Hd E), Hy'. by rewrite (IH l').
Qed.

Lemma distinct_on_snoc k d oid l :
  bson_eqb (field_or_null d "id") k = true →
  present k l = false →
  distinct_on "id" l = true →
  distinct_on "id" (l ++ [{| _id := oid; body := d |}]) = true.
Proof using bson_sym bson_trans.
  intros Hd. induction l as [|y l IH]; cbn; [done|].
  intros [Hy Hp]%orb_false_elim [Hy' Hl]%andb_prop.
  rewrite forallb_app, Hy', IH by done. cbn.
  rewrite (MongoFacts.bson_congr_l bson_eqb bson_sym bson_trans _ _ _ Hd).
  unfold MongoStorage.matches in Hy. by rewrite bson_sym, Hy.
Qed.

Lemma distinct_on_upsert c op :
  wf_op op → distinct_on "id" (docs c) = true →
  distinct_on "id" (docs (upsert c op)) = true.
Proof using bson_sym bson_trans.
  intros Hwf Hd. unfold MongoStorage.upsert.
  destruct (replace_one (selector op) (replacement op) (docs c))
    as [l1|] eqn:E; cbn [docs].
  - by eapply distinct_on_replace_one.
  - apply (distinct_on_snoc (selector op)); [done| |done].
    by eapply MongoFacts.replace_one_absent.
Qed.

Lemma distinct_on_foldl ops c :
  Forall wf_op ops → distinct_on "id" (docs c) = true →
  distinct_on "id" (docs (foldl upsert c ops)) = true.
Proof using bson_sym bson_trans.
  intros Hwf. revert c. induction Hwf as [|op ops Hop _ IH]; intros c Hd.
  - done.
  - cbn. apply IH. by apply distinct_on_upsert.
Qed.

(** *** Looking a record up after it was stored *)

Lemma find_one_replace_one k d l l1 :
  bson_eqb (field_or_null d "id") k = true →
  replace_one k d l = Some l1 →
  ∃ x, find_one k l1 = Some x ∧ body x = d.
Proof.
  intros Hd. revert l1. induction l as [|y l IH]; intros l1; cbn; [done|].
  destruct (matches y k) eqn:Hy.
  - intros [= <-]. cbn. unfold MongoStorage.matches at 1. cbn.
    rewrite Hd. by eexists.
  - destruct (replace_one k d l) as [l'|] eqn:E; [|done]. cbn.
    intros [= <-]. cbn. rewrite Hy. by apply IH.
Qed.

Lemma find_one_snoc_absent k l n :
  present k l = false →
  find_one k (l ++ [n]) = if matches n k then Some n else None.
Proof.
  induction l as [|y l IH]; cbn; [done|].
  intros [Hy Hp]%orb_false_elim. rewrite Hy. by apply IH.
Qed.

Lemma find_one_snoc_other k l n :
  matches n k = false → find_one k (l ++ [n]) = find_one k l.
Proof.
  intros Hn. induction l as [|y l IH]; cbn; [by rewrite Hn|].
  by destruct (matches y k).
Qed.

Lemma find_one_upsert_self c op :
  wf_op op →
  ∃ x, find_one (selector op) (docs (upsert c op)) = Some x ∧
       body x = replacement op.
Proof.
  intros Hwf. unfold MongoStorage.upsert.
  destruct (replace_one (selector op) (replacement op) (docs c))
    as [l1|] eqn:E; cbn [docs].
  - by eapply find_one_replace_one.
  - rewrite find_one_snoc_absent
      by (by eapply MongoFacts.replace_one_absent).
    unfold MongoStorage.matches. cbn. rewrite Hwf. by eexists.
Qed.

Lemma find_one_replace_other k d k' l l1 :
  bson_eqb (field_or_null d "id") k = true →
  bson_eqb k' k = false →
  replace_one k d l = Some l1 →
  find_one k' l1 = find_one k' l.
Proof using bson_sym bson_trans.
  intros Hd Hne. revert l1. induction l as [|y l IH]; intros l1; cbn; [done|].
  destruct (matches y k) eqn:Hy.
  - intros [= <-]. cbn. unfold MongoStorage.matches in *. cbn.
    assert (bson_eqb (field_or_null d "id") k' = false) as ->.
    { rewrite (MongoFacts.bson_congr_l bson_eqb bson_sym bson_trans _ _ _ Hd).
      by rewrite bson_sym. }
    assert (bson_eqb (field_or_null (body y) "id") k' = false) as ->.
    { rewrite (MongoFacts.bson_congr_l bson_eqb bson_sym bson_trans _ _ _ Hy).
      by rewrite bson_sym. }
    done.
  - destruct (replace_one k d l) as [l'|] eqn:E; [|done]. cbn.
    intros [= <-]. cbn. destruct (matches y k'); [done|]. by apply IH.
Qed.

Lemma find_one_upsert_other c op k :
  wf_op op → bson_eqb k (selector op) = false →
  find_one k (docs (upsert c op)) = find_one k (docs c).
Proof using bson_sym bson_trans.
  intros Hwf Hne. unfold MongoStorage.upsert.
  destruct (replace_one (selector op) (replacement op) (docs c))
    as [l1|] eqn:E; cbn [docs].
  - by eapply find_one_replace_other.
  - apply find_one_snoc_other. unfold MongoStorage.matches. cbn.
    rewrite (MongoFacts.bson_congr_l bson_eqb bson_sym bson_trans _ _ _ Hwf).
    by rewrite bson_sym.
Qed.

Lemma find_one_foldl_other ops c k :
  Forall wf_op ops →
  existsb (fun b => bson_eqb k (selector b)) ops = false →
  find_one k (docs (foldl upsert c ops)) = find_one k (docs c).
Proof using bson_sym bson_trans.
  intros Hwf. revert c. induction Hwf as [|op ops Hop _ IH]; intros c; [done|].
  cbn. intros [Hk Hov]%orb_false_elim.
  rewrite IH by done. by apply find_one_upsert_other.
Qed.

(** After a batch, the selector of an operation that no later operation
    overwrites finds that operation's record. *)
Lemma find_one_foldl ops1 a ops2 c :
  Forall wf_op (ops1 ++ a :: ops2) →
  overwritten a ops2 = false →
  ∃ x, find_one (selector a) (docs (foldl upsert c (ops1 ++ a :: ops2)))
         = Some x ∧ body x = replacement a.
Proof using bson_sym bson_trans.
  intros [_ [Ha Hwf2]%Forall_cons]%Forall_app Hov.
  rewrite foldl_app. cbn. rewrite find_one_foldl_other by done.
  by apply find_one_upsert_self.
Qed.

(** *** Storing records none of which is in the collection yet *)

Lemma present_snoc k l n :
  present k (l ++ [n]) = present k l || matches n k.
Proof.
  unfold MongoStorage.present. rewrite existsb_app. cbn.
  by rewrite orb_false_r.
Qed.

Lemma foldl_upsert_fresh ops c :
  Forall wf_op ops → distinct_selectors ops →
  Forall (fun op => present (selector op) (docs c) = false) ops →
  map body (docs (foldl upsert c ops)) =
    map body (docs c) ++ map replacement ops.
Proof using bson_sym bson_trans.
  intros Hwf. revert c.
  induction Hwf as [|a ops Ha Hwf IH]; intros c Hd Hfresh.
  - cbn. by rewrite app_nil_r.
  - apply MongoFacts.distinct_selectors_cons in Hd as [Hov Hd].
    apply Forall_cons in Hfresh as [Hfa Hfresh]. cbn [foldl].
    assert (Hup : docs (upsert c a) =
                    docs c ++ [{| _id := next_oid c; body := replacement a |}]).
    { unfold MongoStorage.upsert.
      by rewrite (proj1 (MongoFacts.replace_one_absent bson_eqb _
                           (replacement a) _) Hfa). }
    rewrite IH; [|done|].
    + rewrite Hup, map_app. cbn. by rewrite <- app_assoc.
    + rewrite Hup. apply Forall_forall. intros b Hb.
      rewrite present_snoc.
      rewrite Forall_forall in Hfresh. rewrite (Hfresh b Hb). cbn.
      unfold MongoStorage.matches. cbn.
      rewrite (MongoFacts.bson_congr_l bson_eqb bson_sym bson_trans _ _ _ Ha).
      unfold MongoStorage.overwritten in Hov.
      destruct (bson_eqb (selector a) (selector b)) eqn:Hab; [|done].
      assert (existsb (fun b => bson_eqb (selector a) (selector b)) ops = true)
        by (apply existsb_exists; exists b; split;
            [by apply list_elem_of_In|done]).
      congruence.
Qed.

End Laws.
End MongoMore.

Lemma assemble_replacements data ops :
  MongoStorage.assemble data = Ok ops →
  map MongoStorage.replacement ops = data ∧
  Forall (fun op => MongoStorage.replacement op !! "id" =
                      Some (MongoStorage.selector op)) ops.
Proof.
  revert ops. induction data as [|d data IH]; intros ops; cbn.
  - by intros [= <-].
  - destruct (d !! "id") as [k|] eqn:Hk; [|done].
    destruct (MongoStorage.assemble data) as [ops'|] eqn:Hops; [|done]. cbn.
    intros [= <-]. destruct (IH _ eq_refl) as [Hrep Hsel].
    split; [cbn; by rewrite Hrep|by constructor].
Qed.

(** X10: [store] keeps ids unique.  If no two documents of the collection
    have the same id before the call, none have after it, whatever records
    are stored (records with equal ids included) and in whatever order the
    server applies the batch. *)
Theorem store_keeps_ids_distinct
    (bson_eqb : pyval → pyval → bool)
    (schedule : list MongoStorage.UpsertOp → list MongoStorage.UpsertOp)
    (data : list CanonicalRecord) (c : MongoStorage.Collection) :
  (∀ a, bson_eqb a a = true) →
  (∀ a b, bson_eqb a b = bson_eqb b a) →
  (∀ a b c, bson_eqb a b = true → bson_eqb b c = true → bson_eqb a c = true) →
  (∀ ops, schedule ops ≡ₚ ops) →
  MongoStorage.distinct_on bson_eqb "id" (MongoStorage.docs c) = true →
  MongoStorage.distinct_on bson_eqb "id"
    (MongoStorage.docs (MongoStorage.store bson_eqb schedule data c).2) = true.
Proof.
  intros Hrefl Hsym Htrans Hperm Hd. unfold MongoStorage.store.
  destruct (MongoStorage.assemble data) as [ops|e] eqn:Hops; [|done].
  destruct (MongoMore.assemble_inv bson_eqb Hrefl _ _ Hops) as (Hwf & _ & _).
  unfold MongoStorage.execute. destruct ops as [|op ops]; [done|].
  cbn [snd]. apply (MongoMore.distinct_on_foldl bson_eqb Hsym Htrans); [|done].
  by rewrite Hperm.
Qed.



(** X13: [store] never deletes or moves a document and never touches the
    indexes.  A document of the collection is still at its position after
    the call, with its [_id]; and if its id matches the id of none of the
    records, it is unchanged. *)
Theorem store_keeps_other_documents
    (bson_eqb : pyval → pyval → bool)
    (schedule : list MongoStorage.UpsertOp → list MongoStorage.UpsertOp)
    (data : list CanonicalRecord) (c : MongoStorage.Collection)
    (i : nat) (x : MongoStorage.StoredDocument) :
  (∀ ops, schedule ops ≡ₚ ops) →
  MongoStorage.docs c !! i = Some x →
  let c' := (MongoStorage.store bson_eqb schedule data c).2 in
  MongoStorage.indexes c' = MongoStorage.indexes c ∧
  ∃ x', MongoStorage.docs c' !! i = Some x' ∧
        MongoStorage._id x' = MongoStorage._id x ∧
        ((∀ d, d ∈ data →
            MongoStorage.matches bson_eqb x
              (MongoStorage.field_or_null d "id") = false) →
         x' = x).
Proof.
  intros Hperm Hx c'. subst c'. unfold MongoStorage.store.
  destruct (MongoStorage.assemble data) as [ops|e] eqn:Hops;
    [|split; [done|by exists x]].
  destruct (assemble_replacements _ _ Hops) as [Hrep Hsel].
  unfold MongoStorage.execute.
  destruct ops as [|op ops]; [split; [done|by exists x]|].
  cbn [snd]. split; [apply MongoMore.foldl_upsert_indexes|].
  destruct (MongoMore.foldl_upsert_lookup bson_eqb (schedule (op :: ops))
              c i x Hx) as (x' & Hx' & Hid & Hsame).
  exists x'. split; [done|]. split; [done|]. intros Hno. apply Hsame.
  rewrite Hperm. apply Forall_forall. intros b Hb.
  rewrite Forall_forall in Hsel.
  assert (Hbd : MongoStorage.replacement b ∈ data).
  { rewrite <- Hrep. apply list_elem_of_fmap. by exists b. }
  specialize (Hno _ Hbd). unfold MongoStorage.field_or_null in Hno.
  by rewrite (Hsel b Hb) in Hno.
Qed.


(** ** Construction again, and the main block *)

Module MainFacts.
Import MongoStorage.

Lemma init_Ok_dom bson_eqb c c' :
  init bson_eqb c = Ok c' →
  ("id" ∈ dom (indexes c') ↔ "id" ∈ dom (indexes c)).
Proof.
  unfold init.
  destruct (decide ("id" ∉ dom (indexes c))) as [Hdom|Hdom];
    [|by intros [= <-]].
  intros [[_ ->]|(_ & _ & ->)]%IndexFacts.create_index_Ok; [done|].
  cbn [indexes]. rewrite dom_insert_L, elem_of_union, elem_of_singleton.
  split; [|by right]. by intros [?|?].
Qed.

(** A collection on which construction changes nothing stays such when
    documents are written to it: construction looks at the indexes only. *)
Lemma init_fixed_indexes bson_eqb c1 c2 :
  init bson_eqb c1 = Ok c1 → indexes c2 = indexes c1 →
  init bson_eqb c2 = Ok c2.
Proof.
  unfold init. intros H1 Hidx. rewrite Hidx.
  destruct (decide ("id" ∉ dom (indexes c1))) as [Hdom|Hdom]; [|done].
  apply IndexFacts.create_index_Ok in H1 as [[E _]|(E & _ & Heq)].
  - apply IndexFacts.create_index_again. by rewrite Hidx.
  - apply (f_equal indexes) in Heq. cbn [indexes] in Heq.
    assert (indexes c1 !! "id_1" = Some id_index)
      by (rewrite Heq; apply lookup_insert_eq).
    congruence.
Qed.

Lemma init_Ok_again bson_eqb c c' :
  init bson_eqb c = Ok c' → init bson_eqb c' = Ok c'.
Proof.
  unfold init at 1.
  destruct (decide ("id" ∉ dom (indexes c))) as [Hdom|Hdom].
  - intros [[E ->]|(E & _ & ->)]%IndexFacts.create_index_Ok.
    + unfold init. rewrite decide_True by done.
      by apply IndexFacts.create_index_again.
    + unfold init. cbn [indexes]. rewrite decide_True.
      * apply IndexFacts.create_index_again. cbn. apply lookup_insert_eq.
      * rewrite dom_insert_L. intros [H|H]%elem_of_union; [|done].
        by apply elem_of_singleton in H.
  - intros [= <-]. unfold init. by rewrite decide_False by done.
Qed.

Section Loop.
Variable bson_eqb : pyval → pyval → bool.
Variable schedule : list UpsertOp → list UpsertOp.
Hypothesis bson_refl : ∀ a, bson_eqb a a = true.
Hypothesis schedule_perm : ∀ ops, schedule ops ≡ₚ ops.

(** What the loop does to a collection does not depend on the collection:
    it ends the same way and applies the same upserts. *)
Lemma loop_upserts w files :
  ∃ ops r, Forall (wf_op bson_eqb) ops ∧
    ∀ c, Main.loop bson_eqb schedule w files c =
           (r, foldl (upsert bson_eqb) c ops).
Proof using bson_refl schedule_perm.
  induction files as [|[data_format path] files (ops' & r' & Hwf' & IH)].
  - by exists [], (Ok tt).
  - cbn [Main.loop].
    destruct (Parser.run data_format w path) as [data|e];
      [|by exists [], (Raise e)].
    unfold store. destruct (assemble data) as [ops|e] eqn:Hops;
      [|by exists [], (Raise e)].
    destruct (MongoMore.assemble_inv bson_eqb bson_refl _ _ Hops)
      as (Hwf & _ & _).
    unfold execute. destruct ops as [|op ops].
    { by exists [], (Raise (InvalidOperation "No operations to execute")). }
    exists (schedule (op :: ops) ++ ops'), r'. split.
    + apply Forall_app. split; [by rewrite schedule_perm|done].
    + intros c. by rewrite IH, foldl_app.
Qed.

End Loop.
End MainFacts.

(** X15: construction never creates an index named 'id' (the index it
    creates is [id_1]), so the test of [__init__], which looks the name
    'id' up among the index names, comes out the same after a successful
    construction as before it. *)
Theorem MongoStorage_init_keeps_guard
    (bson_eqb : pyval → pyval → bool) (c c' : MongoStorage.Collection) :
  MongoStorage.init bson_eqb c = Ok c' →
  ("id" ∈ dom (MongoStorage.indexes c') ↔ "id" ∈ dom (MongoStorage.indexes c)).
Proof. apply MainFacts.init_Ok_dom. Qed.


(** X17: one bad row stops the import.  If construction succeeds and some
    row of the delimited-text file has a missing (None/NaN) or falsy
    product_id cell, the main block exits with KeyError('id'): no record
    of that file is written, the XML file is never stored, and the
    collection is the one construction left. *)
Theorem main_csv_row_without_id
    (bson_eqb : pyval → pyval → bool)
    (schedule : list MongoStorage.UpsertOp → list MongoStorage.UpsertOp)
    (w : World) (c c1 : MongoStorage.Collection)
    (chunks : list CsvParser.DataFrame)
    (i : nat) (cells : list pyval) (cell : pyval) :
  MongoStorage.init bson_eqb c = Ok c1 →
  read_csv w "../tests/samples/products_full.txt" = Some chunks →
  Forall CsvParser.frame_ok chunks →
  CsvParser.all_rows chunks !! i = Some cells →
  cells !! 0 = Some cell →
  CsvParser.isna cell = true ∨ truthy cell = false →
  Main.main bson_eqb schedule w c = (Raise (KeyError "id"), c1).
Proof.
  intros Hinit Hread Hok Hi Hcell Hbad. unfold Main.main. rewrite Hinit.
  unfold Main.FILES. cbn [Main.loop].
  change (Parser.run "csv") with (Parser.run CSV).
  rewrite ParserFacts.run_csv, Hread.
  unfold MongoStorage.store. rewrite MongoFacts.assemble_missing_id; [done|].
  destruct (CsvMore.parse_chunks_cell chunks i cells 0 "product_id" Hok Hi
              eq_refl) as (rec & c0 & Hrec & Hc0 & Hval).
  rewrite Hcell in Hc0. injection Hc0 as <-.
  apply Exists_exists.
  exists (Parser.coerce_item MODEL_TO_CSV_DICT rec). split.
  - apply list_elem_of_In, in_map, list_elem_of_In.
    by eapply list_elem_of_lookup_2.
  - destruct (ParserFacts.registered_mapping_ok CSV _
                ParserFacts.PARSERS_DATA_csv) as [Hnd _].
    cbn [model_mapping] in Hnd.
    rewrite (ParserFacts.coerce_item_lookup _ _ _ (Some "product_id"));
      [|done|by left].
    unfold Parser.entry_value. rewrite Hval. cbn [name_truthy].
    unfold CsvParser.fill_value.
    destruct Hbad as [Hna|Hfalsy]; [by rewrite Hna|].
    destruct (CsvParser.isna cell); [done|]. by rewrite Hfalsy.
Qed.

(** X18: a bad XML item comes too late for the first file.  If the
    delimited-text file was stored and some item_basic_data element of the
    XML file has no truthy item_unique_id, the main block exits with
    KeyError('id'): nothing of the XML file is written, and the collection
    is left with the records of the first file in it. *)
Theorem main_xml_item_without_id
    (bson_eqb : pyval → pyval → bool)
    (schedule : list MongoStorage.UpsertOp → list MongoStorage.UpsertOp)
    (w : World) (c c1 c2 : MongoStorage.Collection)
    (data : list CanonicalRecord)
    (root : XmlParser.Element) (rec : RawRecord) :
  MongoStorage.init bson_eqb c = Ok c1 →
  Parser.run "csv" w "../tests/samples/products_full.txt" = Ok data →
  MongoStorage.store bson_eqb schedule data c1 = (Ok tt, c2) →
  iterparse w "../tests/samples/products_full.xml" = Some root →
  rec ∈ XmlParser.parse_tree root →
  (∀ v, rec !! "item_unique_id" = Some v → truthy v = false) →
  Main.main bson_eqb schedule w c = (Raise (KeyError "id"), c2).
Proof.
  intros Hinit Hcsv Hstore Hxml Hrec Hbad. unfold Main.main. rewrite Hinit.
  unfold Main.FILES. cbn [Main.loop]. rewrite Hcsv, Hstore.
  cbn [Main.loop]. change (Parser.run "xml") with (Parser.run XML). rewrite ParserFacts.run_xml, Hxml.
  unfold MongoStorage.store. rewrite MongoFacts.assemble_missing_id; [done|].
  apply Exists_exists.
  exists (Parser.coerce_item MODEL_TO_XML_DICT rec). split.
  - by apply list_elem_of_In, in_map, list_elem_of_In.
  - destruct (ParserFacts.registered_mapping_ok XML _
                ParserFacts.PARSERS_DATA_xml) as [Hnd _].
    cbn [model_mapping] in Hnd.
    rewrite (ParserFacts.coerce_item_lookup _ _ _ (Some "item_unique_id"));
      [|done|by left].
    unfold Parser.entry_value. cbn [name_truthy].
    destruct (rec !! "item_unique_id") as [v|] eqn:Hv; [|done].
    by rewrite (Hbad v).
Qed.

(** ** The further properties at concrete inputs *)

Lemma coerce_model_keys_canonical_witness :
  length Parser.canonical_fields = 16 ∧
  (∀ k, is_Some (Samples.book_record !! k) → k ∈ Parser.canonical_fields) ∧
  Samples.book_record !! "_id" = None.
Proof.
  apply (coerce_model_keys_canonical Samples.xml_parser Samples.xml_data
           [Samples.book_item] [Samples.book_record] Samples.book_record).
  - reflexivity.
  - vm_compute. reflexivity.
  - apply list_elem_of_here.
Defined.

Lemma coerce_model_values_truthy_witness :
  truthy (PStr "Book") = true ∧ PStr "Book" ≠ PNone ∧
  PStr "Book" ≠ PStr "" ∧ PStr "Book" ≠ PInt 0.
Proof.
  apply (coerce_model_values_truthy Samples.xml_parser Samples.xml_data
           [Samples.book_item] [Samples.book_record] Samples.book_record
           "title" (PStr "Book")).
  - reflexivity.
  - vm_compute. reflexivity.
  - apply list_elem_of_here.
  - reflexivity.
Defined.

Lemma coerce_model_reads_mapped_fields_witness :
  Parser.coerce_model Samples.xml_parser [Samples.book_item] =
  Parser.coerce_model Samples.xml_parser [Samples2.extended_book_item].
Proof.
  apply (coerce_model_reads_mapped_fields Samples.xml_parser Samples.xml_data
           Samples.book_item Samples2.extended_book_item).
  - reflexivity.
  - intros k name Hin%list_elem_of_In. cbn in Hin.
    repeat (destruct Hin as [Hin|Hin];
            [try discriminate Hin; injection Hin as <- <-;
             vm_compute; reflexivity|]).
    destruct Hin.
Defined.

Lemma CsvParser_record_keys_witness :
  is_Some (Samples2.short_record !! "brand") ↔
  "brand" ∈ CsvParser.HEADERS_CSV.
Proof.
  apply (CsvParser_record_keys [Samples.one_row_frame] Samples2.short_record
           "brand").
  - repeat constructor.
  - apply list_elem_of_here.
Defined.

Lemma CsvParser_chunking_irrelevant_witness :
  CsvParser.parse_chunks [Samples.one_row_frame; Samples.one_row_frame] =
  CsvParser.parse_chunks [Samples2.two_row_frame].
Proof.
  apply (CsvParser_chunking_irrelevant
           [Samples.one_row_frame; Samples.one_row_frame]
           [Samples2.two_row_frame]).
  - repeat constructor.
  - repeat constructor.
  - reflexivity.
Defined.

Lemma csv_pipeline_rows_witness :
  ∃ outs : list CanonicalRecord,
    Parser.run CSV Samples2.good_world Samples2.csv_path = Ok outs ∧
    length outs = 1.
Proof.
  destruct (csv_pipeline_rows Samples2.good_world Samples2.csv_path
              [Samples.one_row_frame]) as (outs & Hrun & Hlen & _).
  - reflexivity.
  - repeat constructor.
  - exists outs. split; [exact Hrun|exact Hlen].
Defined.

Lemma XmlParser_cleanup_bounds_tree_witness :
  (length (XmlParser.children
             (XmlParser.walk
                (XmlParser.Elem "products" None
                   [book_element; untitled_element])).2) ≤ 1)%nat.
Proof.
  apply (proj2 XmlParser_cleanup_bounds_tree "products" None
           [book_element; untitled_element]).
  reflexivity.
Defined.

Lemma XmlParser_nested_record_loses_fields_witness :
  ∃ rec : RawRecord,
    last (XmlParser.parse_tree
            (XmlParser.Elem XmlParser.RECORD_TAG None
               (Samples2.nested_before ++
                Samples2.nested_inner :: Samples2.nested_after)))
      = Some rec ∧
    rec !! "a" = None.
Proof.
  destruct (XmlParser_nested_record_loses_fields None Samples2.nested_before
              Samples2.nested_after Samples2.nested_inner)
    as (rec & Hlast & _ & Hkeys).
  - reflexivity.
  - reflexivity.
  - exists rec. split; [exact Hlast|].
    apply (Hkeys "a"). repeat constructor. discriminate.
Defined.

Lemma store_keeps_ids_distinct_witness :
  MongoStorage.distinct_on MongoStorage.py_eqb "id"
    (MongoStorage.docs
       (MongoStorage.store MongoStorage.py_eqb MongoStorage.in_order
          Samples.three_records Samples2.one_document).2) = true.
Proof.
  apply (store_keeps_ids_distinct MongoStorage.py_eqb MongoStorage.in_order
           Samples.three_records Samples2.one_document).
  - exact py_eqb_refl.
  - exact py_eqb_sym.
  - exact py_eqb_trans.
  - intros ops. reflexivity.
  - reflexivity.
Defined.


Lemma sample_distinct_ids :
  MongoStorage.distinct_ids MongoStorage.py_eqb
    [Samples2.record_1A; Samples2.record_2].
Proof.
  split.
  - apply (bool_decide_unpack _). vm_compute. reflexivity.
  - intros d1 d2 H1%list_elem_of_In H2%list_elem_of_In. cbn in H1, H2.
    destruct H1 as [<-|[<-|[]]], H2 as [<-|[<-|[]]];
      vm_compute; congruence.
Qed.


Lemma store_keeps_other_documents_witness :
  MongoStorage.indexes
    (MongoStorage.store MongoStorage.py_eqb MongoStorage.in_order
       Samples.three_records Samples2.one_document).2 =
    MongoStorage.indexes Samples2.one_document ∧
  MongoStorage.docs
    (MongoStorage.store MongoStorage.py_eqb MongoStorage.in_order
       Samples.three_records Samples2.one_document).2 !! 0 =
    Some Samples2.document_9.
Proof.
  destruct (store_keeps_other_documents MongoStorage.py_eqb
              MongoStorage.in_order Samples.three_records
              Samples2.one_document 0 Samples2.document_9)
    as (Hidx & x' & Hx' & _ & Hsame).
  - intros ops. reflexivity.
  - reflexivity.
  - split; [exact Hidx|]. rewrite Hx'. f_equal. apply Hsame.
    intros d Hd%list_elem_of_In. cbn in Hd.
    destruct Hd as [<-|[<-|[<-|[]]]]; reflexivity.
Defined.


Lemma MongoStorage_init_keeps_guard_witness :
  "id" ∈ dom (MongoStorage.indexes Samples.indexed_collection) ↔
  "id" ∈ dom (MongoStorage.indexes Samples.empty_collection).
Proof.
  apply (MongoStorage_init_keeps_guard MongoStorage.py_eqb
           Samples.empty_collection Samples.indexed_collection).
  vm_compute. reflexivity.
Defined.


(** The run on the good files ends with "All done!" and two documents. *)
Example main_good_world :
  (Main.main MongoStorage.py_eqb MongoStorage.in_order Samples2.good_world
     Samples.empty_collection).1 = Ok tt ∧
  map MongoStorage.body
    (MongoStorage.docs
       (Main.main MongoStorage.py_eqb MongoStorage.in_order
          Samples2.good_world Samples.empty_collection).2) =
  [ {[ "id" := PStr "123"; "title" := PStr "Widget" ]}; Samples.book_record ].
Proof. vm_compute. split; reflexivity. Qed.

Lemma main_csv_row_without_id_witness :
  Main.main MongoStorage.py_eqb MongoStorage.in_order Samples2.bad_csv_world
    Samples.empty_collection =
  (Raise (KeyError "id"), Samples.indexed_collection).
Proof.
  apply (main_csv_row_without_id MongoStorage.py_eqb MongoStorage.in_order
           Samples2.bad_csv_world Samples.empty_collection
           Samples.indexed_collection [Samples2.no_id_frame] 0
           (CsvParser.pad_row (length CsvParser.HEADERS_CSV) [])
           CsvParser.NaN).
  - vm_compute. reflexivity.
  - reflexivity.
  - repeat constructor.
  - reflexivity.
  - reflexivity.
  - left. reflexivity.
Defined.

Lemma main_xml_item_without_id_witness :
  Main.main MongoStorage.py_eqb MongoStorage.in_order Samples2.bad_xml_world
    Samples.empty_collection =
  (Raise (KeyError "id"), Samples2.after_csv).
Proof.
  apply (main_xml_item_without_id MongoStorage.py_eqb MongoStorage.in_order
           Samples2.bad_xml_world Samples.empty_collection
           Samples.indexed_collection Samples2.after_csv
           Samples2.csv_records
           (XmlParser.Elem "products" None [untitled_element])
           Samples.untitled_item).
  - vm_compute. reflexivity.
  - vm_compute. reflexivity.
  - vm_compute. reflexivity.
  - reflexivity.
  - vm_compute. apply list_elem_of_here.
  - intros v Hv. vm_compute in Hv. discriminate.
Defined.
